(** * Signed Mises stress for Abaqus output databases ([s_mises.py])

    A shallow embedding of the script: the numpy operations it uses on
    arrays, [sign_trace], [calculate], [fromOdb] and the module-level
    argument loop, followed by the properties of the specification. *)

From Stdlib Require Import ZArith List Bool Lia Floats Sorted.
From stdpp Require Import gmap strings list.

Local Open Scope string_scope.
Local Open Scope nat_scope.
Local Open Scope list_scope.
Set Warnings "-inexact-float".

(** ** Array element types

    numpy arrays are homogeneous; the script only adds, multiplies and
    compares elements and writes the constants 1 and -1. *)

Class Scalar (R : Type) := {
  zero : R;
  one : R;
  minus_one : R;
  add : R -> R -> R;
  mul : R -> R -> R;
  ltb : R -> R -> bool;
  leb : R -> R -> bool
}.

(** [float64]: IEEE 754 binary64, the dtype [np.asarray] gives a list of
    Python floats. *)
#[export] Instance float64 : Scalar float := {|
  zero := 0%float;
  one := 1%float;
  minus_one := (-1)%float;
  add := PrimFloat.add;
  mul := PrimFloat.mul;
  ltb := PrimFloat.ltb;
  leb := PrimFloat.leb
|}.

(** [int64]: the dtype of a list of Python integers, two's complement with
    wrap-around. *)
Definition wrap64 (z : Z) : Z :=
  ((z + 2 ^ 63) mod 2 ^ 64 - 2 ^ 63)%Z.

#[export] Instance int64 : Scalar Z := {|
  zero := 0%Z;
  one := 1%Z;
  minus_one := (-1)%Z;
  add := fun x y => wrap64 (x + y);
  mul := fun x y => wrap64 (x * y);
  ltb := Z.ltb;
  leb := Z.leb
|}.

(** ** Exceptions *)

Inductive PyError :=
  | AssertionError (msg : string)
  | KeyError (key : string)
  | ValueError (msg : string)
  | OdbError (msg : string).

(** ** numpy arrays: a shape and the elements in row-major order *)

Record ndarray (R : Type) := mk_ndarray {
  shape : list nat;
  flat : list R
}.
Arguments mk_ndarray {R} _ _.
Arguments shape {R} _.
Arguments flat {R} _.

Definition size_of (sh : list nat) : nat := fold_right Nat.mul 1 sh.

(** Every array numpy builds holds as many elements as its shape says. *)
Definition well_formed {R} (A : ndarray R) : Prop :=
  length (flat A) = size_of (shape A).

Section Numpy.
Context {R : Type} `{Scalar R}.

(** [chunk k i l]: the [i]-th block of [k] consecutive elements. *)
Definition chunk (k i : nat) (l : list R) : list R :=
  take k (drop (i * k) l).

(** The rows of a 2-D array. *)
Definition rows (A : ndarray R) : list (list R) :=
  match shape A with
  | [n; c] => map (fun i => chunk c i (flat A)) (seq 0 n)
  | _ => []
  end.

(** [A[i, j]] of a 2-D array. *)
Definition item (A : ndarray R) (i j : nat) : option R :=
  match shape A with
  | [n; c] => if (i <? n) && (j <? c) then flat A !! (i * c + j) else None
  | _ => None
  end.

(** [A[:, lo:hi]] of a 2-D array. *)
Definition slice_cols (lo hi : nat) (A : ndarray R) : ndarray R :=
  match shape A with
  | [n; c] =>
      {| shape := [n; Nat.min hi c - lo];
         flat := concat (map (fun r => drop lo (take hi r)) (rows A)) |}
  | _ => A
  end.

(** [add.reduce] over one row: left to right, from its first element. *)
Definition add_reduce (r : list R) : R :=
  match r with
  | [] => zero
  | x :: xs => fold_left add xs x
  end.

(** [np.sum(A, axis=1)] of a 2-D array: the 1-D array of the row sums. *)
Definition np_sum_axis1 (A : ndarray R) : ndarray R :=
  {| shape := [hd 0 (shape A)]; flat := map add_reduce (rows A) |}.

(** [np.ones_like(A)]. *)
Definition ones_like (A : ndarray R) : ndarray R :=
  {| shape := shape A; flat := map (fun _ => one) (flat A) |}.

(** [A < c], element by element. *)
Definition np_less (A : ndarray R) (c : R) : list bool :=
  map (fun x => ltb x c) (flat A).

(** [A[mask] = c]: the elements under a true mask entry become [c]. *)
Fixpoint mask_assign (l : list R) (mask : list bool) (c : R) : list R :=
  match l, mask with
  | x :: l', b :: mask' => (if b then c else x) :: mask_assign l' mask' c
  | _, _ => l
  end.

(** [A.reshape([-1, 1])]: one column, as many rows as there are elements. *)
Definition reshape_col (A : ndarray R) : ndarray R :=
  {| shape := [length (flat A); 1]; flat := flat A |}.

(** [sign_trace(A)], after [A = np.asarray(A)]. *)
Definition sign_trace (A : ndarray R) : PyError + ndarray R :=
  if negb (length (shape A) =? 2) then
    inl (AssertionError "Data must be a 2D array of tensors")
  else if negb (nth 1 (shape A) 0 =? 6) then
    inl (AssertionError
           "Data elements must be in Abaqus symmetric tensor format")
  else
    let trace := np_sum_axis1 (slice_cols 0 3 A) in
    let result := ones_like trace in
    let result :=
      {| shape := shape result;
         flat := mask_assign (flat result) (np_less trace zero) minus_one |} in
    inr (reshape_col result).

(** The sign of one row: -1 when the sum of its first three components
    is less than zero, +1 in every other case. *)
Definition sign_of_row (r : list R) : R :=
  if ltb (add_reduce (take 3 r)) zero then minus_one else one.

End Numpy.

Definition doctest_input : ndarray float :=
  {| shape := [3; 6];
     flat := [0.1; 0.2; -0.4; 0.4; 0.5; 0.6;
              0.2; 0.0; -0.2; 0.3; -0.5; 0.0;
              0.2; 0.0; 0.0; 0.3; -0.5; 0.0]%float |}.

(** ** Broadcasting

    [a * b] on arrays: the shapes are aligned at their last dimension, a
    dimension of length 1 is repeated along the other operand's. *)

Fixpoint broadcast_rev (a b : list nat) : option (list nat) :=
  match a, b with
  | [], _ => Some b
  | _, [] => Some a
  | x :: a', y :: b' =>
      if (x =? y) || (y =? 1) then cons x <$> broadcast_rev a' b'
      else if x =? 1 then cons y <$> broadcast_rev a' b'
      else None
  end.

Definition broadcast_shapes (a b : list nat) : option (list nat) :=
  @rev nat <$> broadcast_rev (rev a) (rev b).

(** A shape brought to rank [k] by leading dimensions of length 1. *)
Definition pad_shape (k : nat) (sh : list nat) : list nat :=
  repeat 1 (k - length sh) ++ sh.

Section Broadcast.
Context {R : Type} `{Scalar R}.

(** The elements of the result, for two shapes of one rank. *)
Fixpoint broadcast_flat (f : R -> R -> R) (sa sb : list nat)
    (a b : list R) : list R :=
  match sa, sb with
  | na :: sa', nb :: sb' =>
      flat_map
        (fun i =>
           broadcast_flat f sa' sb'
             (chunk (size_of sa') (if na =? 1 then 0 else i) a)
             (chunk (size_of sb') (if nb =? 1 then 0 else i) b))
        (seq 0 (if na =? 1 then nb else na))
  | _, _ =>
      match a, b with
      | x :: _, y :: _ => [f x y]
      | _, _ => []
      end
  end.

(** [A * B]. *)
Definition np_multiply (A B : ndarray R) : PyError + ndarray R :=
  match broadcast_shapes (shape A) (shape B) with
  | None => inl (ValueError "operands could not be broadcast together")
  | Some sh =>
      let k := Nat.max (length (shape A)) (length (shape B)) in
      inr {| shape := sh;
             flat := broadcast_flat mul (pad_shape k (shape A))
                       (pad_shape k (shape B)) (flat A) (flat B) |}
  end.

End Broadcast.

(** ** [np.unique] on integer labels: sort, then keep an element when it
    differs from the one before it *)

Fixpoint insert_sorted (x : Z) (l : list Z) : list Z :=
  match l with
  | [] => [x]
  | y :: l' => if (x <=? y)%Z then x :: l else y :: insert_sorted x l'
  end.

Definition sort (l : list Z) : list Z := fold_right insert_sorted [] l.

Fixpoint keep_changes (prev : Z) (l : list Z) : list Z :=
  match l with
  | [] => []
  | x :: l' =>
      if (x =? prev)%Z then keep_changes x l' else x :: keep_changes x l'
  end.

Definition np_unique (l : list Z) : list Z :=
  match sort l with
  | [] => []
  | x :: l' => x :: keep_changes x l'
  end.

(** ** The output database objects the script reads and writes *)

(** Modelled from the spec: the archive library ([odbAccess],
    [abaqusConstants]) is not part of the repository. Its objects are
    records of the attributes section 6 of the specification lists and the
    script uses. Symbolic constants and instances are named by strings. A
    section-point value is an array of entries, each with a Python truth
    value; the type [SP] of the entries is left open. *)
Record FieldBulkData (R SP : Type) := {
  position : string;
  instance : string;
  elementLabels : list Z;
  data : ndarray R;
  sectionPoint : list SP
}.
Arguments position {R SP} _.
Arguments instance {R SP} _.
Arguments elementLabels {R SP} _.
Arguments data {R SP} _.
Arguments sectionPoint {R SP} _.

(** Modelled from the spec: the keyword arguments of one [addData] call,
    the section point being optional. *)
Module kw.
Record t (R SP : Type) := {
  position : string;
  instance : string;
  labels : list Z;
  data : ndarray R;
  sectionPoint : option (list SP)
}.
Arguments position {R SP} _.
Arguments instance {R SP} _.
Arguments labels {R SP} _.
Arguments data {R SP} _.
Arguments sectionPoint {R SP} _.
End kw.

(** Modelled from the spec: a field output, with its blocks as read from
    the database and the data added to it through [addData], in call
    order. *)
Module Field.
Record t (R SP : Type) := {
  name : string;
  description : string;
  type : string;
  bulkDataBlocks : list (FieldBulkData R SP);
  added : list (kw.t R SP)
}.
Arguments name {R SP} _.
Arguments description {R SP} _.
Arguments type {R SP} _.
Arguments bulkDataBlocks {R SP} _.
Arguments added {R SP} _.
End Field.

(** Modelled from the spec: a frame and its mapping from field names to
    field outputs. *)
Module Frame.
Record t (R SP : Type) := {
  description : string;
  fieldOutputs : gmap string (Field.t R SP)
}.
Arguments description {R SP} _.
Arguments fieldOutputs {R SP} _.
End Frame.

(** Modelled from the spec: a step, with its name and its frames in
    stored order. *)
Module Step.
Record t (R SP : Type) := {
  name : string;
  frames : list (Frame.t R SP)
}.
Arguments name {R SP} _.
Arguments frames {R SP} _.
End Step.

(** Modelled from the spec: an output database; [steps] is
    [odb.steps.values()], in stored order. *)
Module Odb.
Record t (R SP : Type) := {
  steps : list (Step.t R SP)
}.
Arguments steps {R SP} _.
End Odb.

(** What the script writes to standard output. *)
Inductive Output :=
  | Line (s : string)
  | DoctestReport.

(** The files the script can open, and its standard output. *)
Record World (R SP : Type) := {
  files : gmap string (Odb.t R SP);
  stdout : list Output
}.
Arguments files {R SP} _.
Arguments stdout {R SP} _.

(** ** Loops that stop at the first exception

    [for x in xs: body(x)], where the body mutates [x] in place and a
    state [G] shared by the iterations. What was mutated before an
    exception stays mutated. *)

Fixpoint for_each_mut {G A : Type}
    (body : A -> G -> A * G * option PyError)
    (xs : list A) (g : G) : list A * G * option PyError :=
  match xs with
  | [] => ([], g, None)
  | x :: rest =>
      match body x g with
      | (x', g', Some e) => (x' :: rest, g', Some e)
      | (x', g', None) =>
          let '(rest', g'', r) := for_each_mut body rest g' in
          (x' :: rest', g'', r)
      end
  end.

(** [for x in xs: body(x)] on a state [G] alone. *)
Fixpoint for_each {G A : Type} (body : A -> G -> G * option PyError)
    (xs : list A) (g : G) : G * option PyError :=
  match xs with
  | [] => (g, None)
  | x :: rest =>
      match body x g with
      | (g', Some e) => (g', Some e)
      | (g', None) => for_each body rest g'
      end
  end.

(** ** The script *)

Definition __doc__ : string :=
  "Abaqus script to compute signed mises stress

S_MISES is calculated according to the Abaqus 2023 method, sign(trace(S)),
and stored in each frame of the odb file.

Usage:

    abaqus python s_mises.py Job-1.odb [Job-2.odb ...]

Carl Osterwisch, September 2023
".

Definition foName : string := "S_MISES".

Section Script.
Context {R SP : Type} `{Scalar R}.

(** The Python truth value of one entry of a section-point value. *)
Variable truth : SP -> bool.

(** [S.getScalarField(invariant=abaqusConstants.MISES)], computed by the
    archive library. *)
Variable getScalarField : Field.t R SP -> Field.t R SP.

(** [np.any]. *)
Definition np_any (l : list SP) : bool := existsb truth l.

(** [name in frame.fieldOutputs]. *)
Definition contains (m : gmap string (Field.t R SP)) (k : string) : bool :=
  match m !! k with
  | Some _ => true
  | None => false
  end.

(** The body of the loop of [calculate] up to the [addData] call: the
    keyword arguments built for one pair of blocks. *)
Definition block_options (Sblock MISESblock : FieldBulkData R SP)
    : PyError + kw.t R SP :=
  match sign_trace (data Sblock) with
  | inl e => inl e
  | inr sign =>
      match np_multiply sign (data MISESblock) with
      | inl e => inl e
      | inr signed =>
          let options :=
            {| kw.position := position MISESblock;
               kw.instance := instance MISESblock;
               kw.labels := np_unique (elementLabels MISESblock);
               kw.data := signed;
               kw.sectionPoint := None |} in
          if np_any (sectionPoint MISESblock) then
            inr {| kw.position := kw.position options;
                   kw.instance := kw.instance options;
                   kw.labels := kw.labels options;
                   kw.data := kw.data options;
                   kw.sectionPoint := Some (sectionPoint MISESblock) |}
          else inr options
      end
  end.

(** [field.addData] called with the keyword arguments [options]. *)
Definition addData (field : Field.t R SP) (options : kw.t R SP)
    : Field.t R SP :=
  {| Field.name := Field.name field;
     Field.description := Field.description field;
     Field.type := Field.type field;
     Field.bulkDataBlocks := Field.bulkDataBlocks field;
     Field.added := Field.added field ++ [options] |}.

(** The loop of [calculate] over the paired blocks. *)
Fixpoint add_blocks
    (pairs : list (FieldBulkData R SP * FieldBulkData R SP))
    (S_MISES : Field.t R SP) : Field.t R SP * option PyError :=
  match pairs with
  | [] => (S_MISES, None)
  | (Sblock, MISESblock) :: rest =>
      match block_options Sblock MISESblock with
      | inl e => (S_MISES, Some e)
      | inr options => add_blocks rest (addData S_MISES options)
      end
  end.

(** [calculate(outputFrame)]: the frame after the call, and the
    exception that ended it, if any. The new field is attached to the
    frame when it is created, before the loop, and holds what was added
    to it when an exception ends the loop. [fromOdb] calls [calculate]
    only on a frame without a field of that name; what the library does
    with a second field of one name is not modelled. *)
Definition calculate (outputFrame : Frame.t R SP)
    : Frame.t R SP * option PyError :=
  match Frame.fieldOutputs outputFrame !! "S" with
  | None => (outputFrame, Some (KeyError "S"))
  | Some S' =>
      let MISES := getScalarField S' in
      let S_MISES :=
        {| Field.name := foName;
           Field.description := "Signed Mises equivalent stress";
           Field.type := Field.type MISES;
           Field.bulkDataBlocks := [];
           Field.added := [] |} in
      let '(S_MISES, err) :=
        add_blocks
          (zip (Field.bulkDataBlocks S') (Field.bulkDataBlocks MISES))
          S_MISES in
      ({| Frame.description := Frame.description outputFrame;
          Frame.fieldOutputs :=
            <[foName := S_MISES]> (Frame.fieldOutputs outputFrame) |},
       err)
  end.

(** [calculate(frame)], called as [fromOdb] calls it, on a frame with the
    field "S" and without the field "S_MISES", emits [options] as block
    number [k] of the new
    field, from the [k]-th blocks [Sblock] of the stress field and
    [MISESblock] of its Mises field. *)
Definition emits (frame : Frame.t R SP) (k : nat)
    (Sblock MISESblock : FieldBulkData R SP) (options : kw.t R SP) : Prop :=
  exists S' S_MISES,
    Frame.fieldOutputs frame !! "S" = Some S'
    /\ Frame.fieldOutputs frame !! foName = None
    /\ Field.bulkDataBlocks S' !! k = Some Sblock
    /\ Field.bulkDataBlocks (getScalarField S') !! k = Some MISESblock
    /\ Frame.fieldOutputs (calculate frame).1 !! foName = Some S_MISES
    /\ Field.added S_MISES !! k = Some options.

(** The test of [fromOdb] on a frame. *)
Definition wants_calculate (frame : Frame.t R SP) : bool :=
  contains (Frame.fieldOutputs frame) "S"
  && negb (contains (Frame.fieldOutputs frame) foName).

(** [print(step.name, frame.description)]. *)
Definition progress (step : Step.t R SP) (frame : Frame.t R SP) : Output :=
  Line (Step.name step +:+ " " +:+ Frame.description frame).

(** A frame after the inner loop of [fromOdb] went through it without an
    exception. *)
Definition synthesized (frame : Frame.t R SP) : Frame.t R SP :=
  if wants_calculate frame then (calculate frame).1 else frame.

(** The progress lines of a step: one for each of its frames that passes
    the test, in stored order. *)
Definition progress_lines (step : Step.t R SP) : list Output :=
  map (progress step) (filter wants_calculate (Step.frames step)).

(** The frames of a database none of which passes the test of [fromOdb]:
    each one lacks "S" or already holds "S_MISES". *)
Definition settled (odb : Odb.t R SP) : Prop :=
  Forall (fun step =>
            Forall (fun frame => wants_calculate frame = false)
                   (Step.frames step)) (Odb.steps odb).

(** The body of the inner loop of [fromOdb]. *)
Definition visit_frame (step : Step.t R SP) (frame : Frame.t R SP)
    (out : list Output) : Frame.t R SP * list Output * option PyError :=
  if wants_calculate frame then
    let out := out ++ [progress step frame] in
    let '(frame, err) := calculate frame in
    (frame, out, err)
  else (frame, out, None).

(** The body of the outer loop of [fromOdb]. *)
Definition visit_step (step : Step.t R SP) (out : list Output)
    : Step.t R SP * list Output * option PyError :=
  let '(frames, out, err) :=
    for_each_mut (visit_frame step) (Step.frames step) out in
  ({| Step.name := Step.name step; Step.frames := frames |}, out, err).

(** The two loops of [fromOdb] on an open database. *)
Definition walk (odb : Odb.t R SP) (out : list Output)
    : Odb.t R SP * list Output * option PyError :=
  let '(steps, out, err) := for_each_mut visit_step (Odb.steps odb) out in
  ({| Odb.steps := steps |}, out, err).

(** [fromOdb(odbName)]: [openOdb] raises on a name it cannot open; the
    database is changed in place. *)
Definition fromOdb (odbName : string) (w : World R SP)
    : World R SP * option PyError :=
  match files w !! odbName with
  | None => (w, Some (OdbError odbName))
  | Some odb =>
      let '(odb, out, err) := walk odb (stdout w) in
      ({| files := <[odbName := odb]> (files w); stdout := out |}, err)
  end.

(** [print(x)]. *)
Definition print (o : Output) (w : World R SP) : World R SP :=
  {| files := files w; stdout := stdout w ++ [o] |}.

(** The body of the module-level loop over [sys.argv[1:]]. *)
Definition handle_arg (argv : list string) (arg : string) (w : World R SP)
    : World R SP * option PyError :=
  if String.eqb "--help" arg then (print (Line __doc__) w, None)
  else if String.eqb "--test" arg then (print DoctestReport w, None)
  else
    let w := if 2 <? length argv then print (Line arg) w else w in
    fromOdb arg w.

(** The module-level code, run on [sys.argv]. *)
Definition main (argv : list string) (w : World R SP)
    : World R SP * option PyError :=
  for_each (handle_arg argv) (tail argv) w.

End Script.

(** ** The argument loop as the specification words it

    Section 4.3 of the specification has each archive of the command line
    processed independently, a failure on one not preventing the next from
    being attempted: a loop that drops the exception of an iteration and
    goes on. *)

Fixpoint for_each_isolated {G A : Type} (body : A -> G -> G * option PyError)
    (xs : list A) (g : G) : G :=
  match xs with
  | [] => g
  | x :: rest => for_each_isolated body rest (body x g).1
  end.

Definition main_isolated {R SP : Type} `{Scalar R} (truth : SP -> bool)
    (getScalarField : Field.t R SP -> Field.t R SP)
    (argv : list string) (w : World R SP) : World R SP :=
  for_each_isolated (handle_arg truth getScalarField argv) (tail argv) w.


(** ** An archive library and two databases for the examples

    Section points are numbered by integers, 0 standing for none. The Mises
    field of a stress field holds, block by block, the Mises invariant of
    each row in one column. *)

Definition truth_Z (z : Z) : bool := negb (z =? 0)%Z.

Definition mises_of_row (r : list float) : float :=
  let s := fun i => nth i r 0%float in
  let sq := fun x : float => (x * x)%float in
  let '(s11, s22, s33) := (s 0, s 1, s 2) in
  let '(s12, s13, s23) := (s 3, s 4, s 5) in
  sqrt (0.5 * (sq (s11 - s22) + sq (s22 - s33) + sq (s33 - s11))
        + 3 * (sq s12 + sq s13 + sq s23))%float.

Definition mises_block (b : FieldBulkData float Z) : FieldBulkData float Z :=
  {| position := position b;
     instance := instance b;
     elementLabels := elementLabels b;
     data := {| shape := [hd 0 (shape (data b)); 1];
                flat := map mises_of_row (rows (data b)) |};
     sectionPoint := sectionPoint b |}.

Definition mises_field (S' : Field.t float Z) : Field.t float Z :=
  {| Field.name := Field.name S';
     Field.description := Field.description S';
     Field.type := "SCALAR";
     Field.bulkDataBlocks := map mises_block (Field.bulkDataBlocks S');
     Field.added := [] |}.

(** Three integration points of elements 7, 3 and 7, at section point 1,
    with the stress tensors of the docstring. *)
Definition example_block : FieldBulkData float Z :=
  {| position := "INTEGRATION_POINT";
     instance := "PART-1-1";
     elementLabels := [7; 3; 7]%Z;
     data := doctest_input;
     sectionPoint := [1%Z] |}.

Definition stress_field (blocks : list (FieldBulkData float Z))
    : Field.t float Z :=
  {| Field.name := "S";
     Field.description := "Stress components";
     Field.type := "TENSOR_3D_FULL";
     Field.bulkDataBlocks := blocks;
     Field.added := [] |}.

Definition example_frame : Frame.t float Z :=
  {| Frame.description := "Increment 1";
     Frame.fieldOutputs := {[ "S" := stress_field [example_block] ]} |}.

Definition example_odb : Odb.t float Z :=
  {| Odb.steps := [ {| Step.name := "Step-1";
                       Step.frames := [example_frame] |} ] |}.

(** A database whose second stress block has five components per
    tensor. *)
Definition narrow_block : FieldBulkData float Z :=
  {| position := "INTEGRATION_POINT";
     instance := "PART-1-1";
     elementLabels := [1%Z];
     data := {| shape := [1; 5]; flat := [1; 2; 3; 4; 5]%float |};
     sectionPoint := [] |}.

Definition narrow_frame : Frame.t float Z :=
  {| Frame.description := "Increment 1";
     Frame.fieldOutputs :=
       {[ "S" := stress_field [example_block; narrow_block] ]} |}.

Definition narrow_odb : Odb.t float Z :=
  {| Odb.steps := [ {| Step.name := "Step-1";
                       Step.frames := [narrow_frame] |} ] |}.

Definition example_world : World float Z :=
  {| files := <[ "a.odb" := narrow_odb ]> {[ "b.odb" := example_odb ]};
     stdout := [] |}.


(** The block [calculate] emits for [example_block]. *)
Definition example_options : kw.t float Z :=
  {| kw.position := "INTEGRATION_POINT";
     kw.instance := "PART-1-1";
     kw.labels := [3; 7]%Z;
     kw.data :=
       {| shape := [3; 1];
          flat := [-1.6186414056238645; 1.0677078252031311;
                   1.0295630140987]%float |};
     kw.sectionPoint := Some [1%Z] |}.

(** Some frame of the database still passes the test of [fromOdb]. *)
Definition pending {R SP : Type} (odb : Odb.t R SP) : bool :=
  existsb (fun step => existsb wants_calculate (Step.frames step))
          (Odb.steps odb).


(** ** Notions used by the properties *)

(** A pair of blocks as the archive library hands them out: the stress
    block a well-formed (n, 6) array, the Mises block a well-formed array
    with the same number of rows. *)
Definition conforming {R SP : Type}
    (pair : FieldBulkData R SP * FieldBulkData R SP) : Prop :=
  exists n c,
    well_formed (data pair.1) /\ shape (data pair.1) = [n; 6]
    /\ well_formed (data pair.2) /\ shape (data pair.2) = [n; c].

(** The stress tensors of [example_block] in another order of rows, with
    other shear components. *)
Definition shuffled_input : ndarray float :=
  {| shape := [2; 6];
     flat := [0.2; 0.0; 0.0; 9.0; 9.0; 9.0;
              0.1; 0.2; -0.4; 0.0; 0.0; 0.0]%float |}.


(** A frame after some code ran on it keeps what it held: its description,
    every field under a name other than "S_MISES", and the field
    "S_MISES" if it held one. *)
Definition frame_kept {R SP : Type} (frame frame' : Frame.t R SP) : Prop :=
  Frame.description frame' = Frame.description frame
  /\ forall name,
       name <> "S_MISES" \/ is_Some (Frame.fieldOutputs frame !! name) ->
       Frame.fieldOutputs frame' !! name = Frame.fieldOutputs frame !! name.

Definition step_kept {R SP : Type} (step step' : Step.t R SP) : Prop :=
  Step.name step' = Step.name step
  /\ Forall2 frame_kept (Step.frames step) (Step.frames step').

Definition odb_kept {R SP : Type} (odb odb' : Odb.t R SP) : Prop :=
  Forall2 step_kept (Odb.steps odb) (Odb.steps odb').



(** The database named [name] is there and none of its frames passes the
    test of [fromOdb]: every frame with "S" holds "S_MISES". *)
Definition processed {R SP : Type} (w : World R SP) (name : string) : Prop :=
  exists odb, files w !! name = Some odb /\ settled odb.

(** What the argument loop prints for an argument, progress lines apart:
    the documentation, the doctest report, or the echo of an archive name
    when the command line has more than one argument. *)
Definition own_lines (argv : list string) (arg : string) : list Output :=
  if String.eqb "--help" arg then [Line __doc__]
  else if String.eqb "--test" arg then [DoctestReport]
  else if 2 <? length argv then [Line arg] else [].

(** ** [onJobCompletion]

    The function is meant to be copied into the Abaqus environment file,
    which defines [savedir] and [id]. Its [import] of [s_mises] runs the
    module, and with it the argument loop on the host's [sys.argv], unless
    the module is already imported; a module whose code raised is not
    kept as imported. [os.path.join] is the library's. *)

Section Environment.
Context {R SP : Type} `{Scalar R}.
Variable truth : SP -> bool.
Variable getScalarField : Field.t R SP -> Field.t R SP.
Variable join : string -> string -> string.

(** [import s_mises]: whether the module is imported afterwards, the
    world, and the exception of the module's code, if any. *)
Definition import_s_mises (imported : bool) (argv : list string)
    (w : World R SP) : bool * World R SP * option PyError :=
  if imported then (true, w, None)
  else
    match main truth getScalarField argv w with
    | (w, Some e) => (false, w, Some e)
    | (w, None) => (true, w, None)
    end.

Definition onJobCompletion (imported : bool) (argv : list string)
    (savedir id : string) (w : World R SP)
    : bool * World R SP * option PyError :=
  match import_s_mises imported argv w with
  | (imported, w, Some e) => (imported, w, Some e)
  | (imported, w, None) =>
      let '(w, err) :=
        fromOdb truth getScalarField (join savedir (id +:+ ".odb")) w in
      (imported, w, err)
  end.

End Environment.


(** ** More examples *)

(** The block of [example_block] with its element labels in another order
    and repeated differently, and without a section point. *)
Definition reordered_block : FieldBulkData float Z :=
  {| position := position example_block;
     instance := instance example_block;
     elementLabels := [3; 7; 3]%Z;
     data := data example_block;
     sectionPoint := [] |}.

Definition reordered_frame : Frame.t float Z :=
  {| Frame.description := "Increment 2";
     Frame.fieldOutputs := {[ "S" := stress_field [reordered_block] ]} |}.

(** The block [calculate] emits for [reordered_block]. *)
Definition reordered_options : kw.t float Z :=
  {| kw.position := kw.position example_options;
     kw.instance := kw.instance example_options;
     kw.labels := [3; 7]%Z;
     kw.data := kw.data example_options;
     kw.sectionPoint := None |}.

(** [os.path.join] on two relative names, the first possibly empty. *)
Definition example_join (savedir name : string) : string :=
  if String.eqb savedir "" then name else savedir +:+ "/" +:+ name.


(** * Properties *)

(** ** Lists cut into blocks *)

Section Blocks.
Context {A : Type}.
Implicit Types (l : list A) (ls : list (list A)).

Lemma take_drop_concat k i ls :
  Forall (fun l => length l = k) ls ->
  take k (drop (i * k) (concat ls)) = nth i ls [].
Proof.
  intros Hall. revert i.
  induction Hall as [|l ls Hl _ IH]; intros i.
  - destruct i; simpl; rewrite ?drop_nil, ?take_nil; reflexivity.
  - destruct i as [|i]; simpl.
    + rewrite drop_0, take_app_length'; [reflexivity | symmetry; exact Hl].
    + replace (k + i * k) with (length l + i * k) by lia.
      rewrite <- drop_drop, drop_app_length. apply IH.
Qed.

Lemma lookup_flat_map_seq (f : nat -> list A) k n i j :
  (forall i', i' < n -> length (f i') = k) ->
  i < n -> j < k ->
  flat_map f (seq 0 n) !! (i * k + j) = f i !! j.
Proof.
  intros Hlen Hi Hj.
  assert (Hgen : forall s m, (forall i', i' < m -> length (f (s + i')) = k) ->
            i < m -> flat_map f (seq s m) !! (i * k + j) = f (s + i) !! j).
  { clear Hlen Hi. intros s m. revert s i.
    induction m as [|m IH]; intros s i Hl Hi; [lia|].
    simpl. destruct i as [|i].
    - rewrite lookup_app_l.
      + rewrite Nat.add_0_r. reflexivity.
      + specialize (Hl 0). rewrite Nat.add_0_r in Hl. rewrite Hl; lia.
    - rewrite lookup_app_r.
      + pose proof (Hl 0) as H0. rewrite Nat.add_0_r in H0.
        rewrite H0 by lia.
        replace (S i * k + j - k) with (i * k + j) by lia.
        rewrite IH.
        * f_equal. f_equal. lia.
        * intros i' Hi'. replace (S s + i') with (s + S i') by lia.
          apply Hl. lia.
        * lia.
      + pose proof (Hl 0) as H0. rewrite Nat.add_0_r in H0.
        rewrite H0 by lia. lia. }
  apply (Hgen 0 n); auto.
Qed.

Lemma length_flat_map_seq (f : nat -> list A) k n :
  (forall i, i < n -> length (f i) = k) ->
  length (flat_map f (seq 0 n)) = n * k.
Proof.
  intros Hlen.
  assert (Hgen : forall s m, (forall i, i < m -> length (f (s + i)) = k) ->
            length (flat_map f (seq s m)) = m * k).
  { intros s m. revert s. induction m as [|m IH]; intros s Hl; [reflexivity|].
    simpl. rewrite length_app, IH.
    - specialize (Hl 0). rewrite Nat.add_0_r in Hl. rewrite Hl; lia.
    - intros i Hi. replace (S s + i) with (s + S i) by lia. apply Hl. lia. }
  apply (Hgen 0 n). exact Hlen.
Qed.

End Blocks.

(** ** Arrays and their rows *)

Section ArrayFacts.
Context {R : Type} `{Scalar R}.
Implicit Types (A : ndarray R) (l : list R).

Lemma length_chunk k i l :
  (i + 1) * k <= length l -> length (chunk k i l) = k.
Proof.
  intros Hle. unfold chunk. rewrite length_take, length_drop. lia.
Qed.

Lemma lookup_chunk k i j l :
  j < k -> chunk k i l !! j = l !! (i * k + j).
Proof.
  intros Hj. unfold chunk.
  rewrite lookup_take_lt by exact Hj. apply lookup_drop.
Qed.

Lemma length_rows A n c : shape A = [n; c] -> length (rows A) = n.
Proof.
  intros Hs. unfold rows. rewrite Hs, length_map, length_seq. reflexivity.
Qed.

Lemma lookup_rows A n c i :
  shape A = [n; c] -> i < n -> rows A !! i = Some (chunk c i (flat A)).
Proof.
  intros Hs Hi. unfold rows. rewrite Hs, list_lookup_fmap.
  rewrite lookup_seq_lt by exact Hi. reflexivity.
Qed.

Lemma rows_uniform A n c :
  well_formed A -> shape A = [n; c] ->
  Forall (fun r => length r = c) (rows A).
Proof.
  unfold well_formed. intros Hwf Hs. rewrite Hs in Hwf. simpl in Hwf.
  unfold rows. rewrite Hs. apply List.Forall_forall. intros r Hr.
  apply in_map_iff in Hr as (i & <- & Hi). apply in_seq in Hi.
  apply length_chunk. nia.
Qed.

Lemma map_nth_seq {B : Type} (ls : list B) (d : B) :
  map (fun i => nth i ls d) (seq 0 (length ls)) = ls.
Proof.
  apply nth_ext with (d := d) (d' := d).
  - rewrite length_map, length_seq. reflexivity.
  - intros i Hi. rewrite length_map, length_seq in Hi.
    rewrite (nth_indep _ d (nth 0 ls d)) by (rewrite length_map, length_seq; exact Hi).
    rewrite (map_nth (fun i => nth i ls d)), seq_nth by exact Hi.
    reflexivity.
Qed.

(** The rows of [A[:, lo:hi]] are the rows of [A], each cut to the
    columns [lo] to [hi]. *)
Lemma rows_slice_cols lo hi A n c :
  well_formed A -> shape A = [n; c] ->
  rows (slice_cols lo hi A) = map (fun r => drop lo (take hi r)) (rows A).
Proof.
  intros Hwf Hs.
  pose proof (rows_uniform A n c Hwf Hs) as Hu.
  pose proof (length_rows A n c Hs) as Hn.
  set (ps := map (fun r => drop lo (take hi r)) (rows A)).
  assert (Hps : Forall (fun p => length p = Nat.min hi c - lo) ps).
  { subst ps. apply List.Forall_forall. intros p Hp.
    apply in_map_iff in Hp as (r & <- & Hr).
    rewrite List.Forall_forall in Hu. specialize (Hu r Hr).
    rewrite length_drop, length_take. lia. }
  assert (Hlen : length ps = n).
  { subst ps. rewrite length_map. exact Hn. }
  unfold slice_cols. rewrite Hs. unfold rows at 1. simpl.
  fold ps. rewrite <- Hlen at 1.
  rewrite <- (map_nth_seq ps []) at 2.
  apply map_ext. intros i. unfold chunk.
  apply take_drop_concat. exact Hps.
Qed.

Lemma mask_assign_map {B : Type} (f : B -> bool) (c1 c2 : R) (l : list B) :
  mask_assign (map (fun _ => c1) l) (map f l) c2
  = map (fun x => if f x then c2 else c1) l.
Proof.
  induction l as [|x l IH]; simpl; [reflexivity|]. rewrite IH. reflexivity.
Qed.

Lemma sign_trace_rows A n :
  well_formed A -> shape A = [n; 6] ->
  sign_trace A = inr {| shape := [n; 1]; flat := map sign_of_row (rows A) |}.
Proof.
  intros Hwf Hs. unfold sign_trace. rewrite Hs. simpl.
  unfold reshape_col, np_less, ones_like, np_sum_axis1. simpl.
  rewrite (rows_slice_cols 0 3 A n 6 Hwf Hs).
  rewrite mask_assign_map, !length_map, (length_rows A n 6 Hs).
  rewrite !map_map. reflexivity.
Qed.

(** A row of a well-formed (n, 6) array, component by component. *)
Lemma row_components A n i :
  well_formed A -> shape A = [n; 6] -> i < n ->
  exists a0 a1 a2 a3 a4 a5,
    rows A !! i = Some [a0; a1; a2; a3; a4; a5]
    /\ item A i 0 = Some a0 /\ item A i 1 = Some a1 /\ item A i 2 = Some a2.
Proof.
  intros Hwf Hs Hi.
  pose proof (rows_uniform A n 6 Hwf Hs) as Hu.
  pose proof (lookup_rows A n 6 i Hs Hi) as Hr.
  rewrite List.Forall_forall in Hu.
  assert (Hlen : length (chunk 6 i (flat A)) = 6).
  { apply Hu. apply list_elem_of_In. eapply list_elem_of_lookup_2. exact Hr. }
  destruct (chunk 6 i (flat A)) as [|a0 [|a1 [|a2 [|a3 [|a4 [|a5 [|]]]]]]] eqn:Hc;
    try discriminate.
  exists a0, a1, a2, a3, a4, a5. split; [exact Hr|].
  assert (Hit : forall j, j < 6 ->
            item A i j = [a0; a1; a2; a3; a4; a5] !! j).
  { intros j Hj. unfold item. rewrite Hs.
    destruct (Nat.ltb_spec i n); [|lia].
    destruct (Nat.ltb_spec j 6); [|lia]. simpl.
    rewrite <- Hc. symmetry. apply lookup_chunk. exact Hj. }
  rewrite !Hit by lia. auto.
Qed.

End ArrayFacts.

(** ** The Sign Calculator *)

Section SignTrace.
Context {R : Type} `{Scalar R}.
Implicit Types (A : ndarray R).

(** On a well-formed (n, 6) array the result has shape (n, 1), and its
    row [i] holds -1 when the sum of the first three components of row
    [i] of the input tests less than zero, +1 when it does not. *)
Lemma sign_trace_item A n i :
  well_formed A -> shape A = [n; 6] -> i < n ->
  exists sign a0 a1 a2,
    sign_trace A = inr sign
    /\ shape sign = [n; 1] /\ well_formed sign
    /\ item A i 0 = Some a0 /\ item A i 1 = Some a1 /\ item A i 2 = Some a2
    /\ item sign i 0
       = Some (if ltb (add (add a0 a1) a2) zero then minus_one else one).
Proof.
  intros Hwf Hs Hi.
  destruct (row_components A n i Hwf Hs Hi)
    as (a0 & a1 & a2 & a3 & a4 & a5 & Hrow & H0 & H1 & H2).
  eexists _, a0, a1, a2.
  split; [apply (sign_trace_rows A n Hwf Hs)|].
  split; [reflexivity|].
  split.
  { unfold well_formed. simpl.
    rewrite length_map, (length_rows A n 6 Hs). lia. }
  repeat (split; [assumption|]).
  unfold item. simpl.
  destruct (Nat.ltb_spec i n); [|lia]. simpl.
  rewrite Nat.mul_1_r, Nat.add_0_r, list_lookup_fmap, Hrow.
  reflexivity.
Qed.

(** X1. What [sign_trace] computes, on every element type: for a
    well-formed (n, 6) array the result is a well-formed (n, 1) array
    whose row [i] is -1 when the sum of the first three components of row
    [i] tests less than zero, and +1 in every other case (a NaN sum
    among them). *)
Theorem sign_trace_exact A n i :
  well_formed A -> shape A = [n; 6] -> i < n ->
  exists sign a0 a1 a2,
    sign_trace A = inr sign
    /\ shape sign = [n; 1] /\ well_formed sign
    /\ item A i 0 = Some a0 /\ item A i 1 = Some a1 /\ item A i 2 = Some a2
    /\ item sign i 0
       = Some (if ltb (add (add a0 a1) a2) zero then minus_one else one).
Proof. apply sign_trace_item. Qed.

(** X2. Where the trace of a row compares with zero, that is where
    [trace < 0] is the negation of [0 <= trace], as it is for every
    integer and every float trace other than NaN, the row gets +1 when
    its trace is greater than or equal to zero and -1 otherwise. *)
Theorem sign_trace_ordered A n i :
  well_formed A -> shape A = [n; 6] -> i < n ->
  exists sign a0 a1 a2,
    sign_trace A = inr sign
    /\ shape sign = [n; 1]
    /\ item A i 0 = Some a0 /\ item A i 1 = Some a1 /\ item A i 2 = Some a2
    /\ (ltb (add (add a0 a1) a2) zero = negb (leb zero (add (add a0 a1) a2)) ->
        item sign i 0
        = Some (if leb zero (add (add a0 a1) a2) then one else minus_one)).
Proof.
  intros Hwf Hs Hi.
  destruct (sign_trace_item A n i Hwf Hs Hi)
    as (sign & a0 & a1 & a2 & Hsign & Hshape & _ & H0 & H1 & H2 & Hitem).
  exists sign, a0, a1, a2. repeat (split; [assumption|]).
  intros Hord. rewrite Hitem, Hord.
  destruct (leb zero (add (add a0 a1) a2)); reflexivity.
Qed.

End SignTrace.

(** On integers every trace compares with zero. *)
Lemma int64_ordered (t : Z) : ltb t zero = negb (leb zero t).
Proof. simpl. apply Z.ltb_antisym. Qed.

(** C1. The claim gives -1 to every row whose trace is not greater than or
    equal to zero. The code sets -1 only where [trace < 0] holds: for the
    (1, 6) array of floats [[nan, 0, 0, 0, 0, 0]] the trace is NaN, which is
    neither >= 0 nor < 0, and [sign_trace] returns [[1.]]; the same for
    [[inf, -inf, 0, 0, 0, 0]], whose components are numbers and whose
    trace is NaN. *)
Theorem sign_trace_nan_trace :
  sign_trace {| shape := [1; 6]; flat := [nan; 0; 0; 0; 0; 0]%float |}
  = inr {| shape := [1; 1]; flat := [1%float] |}
  /\ leb zero (add (add nan 0%float) 0%float) = false
  /\ ltb (add (add nan 0%float) 0%float) zero = false
  /\ sign_trace
       {| shape := [1; 6];
          flat := [infinity; neg_infinity; 0; 0; 0; 0]%float |}
     = inr {| shape := [1; 1]; flat := [1%float] |}
  /\ leb zero (add (add infinity neg_infinity) 0%float) = false.
Proof. vm_compute. repeat split. Qed.

(** The worked example of the docstring, in binary64 arithmetic. *)
Lemma sign_trace_doctest :
  sign_trace doctest_input
  = inr {| shape := [3; 1]; flat := [-1; 1; 1]%float |}.
Proof. vm_compute. reflexivity. Qed.

(** The same on integers: traces -1, 0 and 2. *)
Lemma sign_trace_int64 :
  sign_trace
    {| shape := [3; 6];
       flat := [1; 2; -4; 4; 5; 6;
                2; 0; -2; 3; -5; 0;
                2; 0; 0; 3; -5; 0]%Z |}
  = inr {| shape := [3; 1]; flat := [-1; 1; 1]%Z |}.
Proof. vm_compute. reflexivity. Qed.

(** C3. [sign_trace] raises exactly when its argument is not 2-dimensional
    or its second dimension is not 6, and what it raises then is the
    [AssertionError] of one of its two [assert] statements (the
    specification's ShapeError); on an (N, 6) array it returns. *)
Theorem sign_trace_raises_iff {R : Type} `{Scalar R} (A : ndarray R) :
  ((exists e, sign_trace A = inl e)
   <-> (length (shape A) <> 2 \/ nth 1 (shape A) 0 <> 6))
  /\ (forall e, sign_trace A = inl e ->
        e = AssertionError "Data must be a 2D array of tensors"
        /\ length (shape A) <> 2
        \/ e = AssertionError
                 "Data elements must be in Abaqus symmetric tensor format"
           /\ length (shape A) = 2 /\ nth 1 (shape A) 0 <> 6)
  /\ (forall n, shape A = [n; 6] -> exists sign, sign_trace A = inr sign).
Proof.
  unfold sign_trace.
  destruct (Nat.eqb_spec (length (shape A)) 2) as [H2|H2]; simpl.
  - destruct (Nat.eqb_spec (nth 1 (shape A) 0) 6) as [H6|H6]; simpl.
    + split; [|split].
      * split; [intros [e He]; discriminate | intros [?|?]; contradiction].
      * intros e He. discriminate.
      * intros n Hn. eexists. reflexivity.
    + split; [|split].
      * split; [auto | intros _; eexists; reflexivity].
      * intros e He. injection He as <-. right. auto.
      * intros n Hn. rewrite Hn in H6. simpl in H6. contradiction.
  - split; [|split].
    + split; [auto | intros _; eexists; reflexivity].
    + intros e He. injection He as <-. left. auto.
    + intros n Hn. rewrite Hn in H2. simpl in H2. contradiction.
Qed.

(** C10. The empty batch: on an array of shape (0, 6), of any element
    type, [sign_trace] raises nothing and returns the empty array of
    shape (0, 1). The array of shape (0, 6) holds no element; the result
    does not depend on the elements in any case. *)
Theorem sign_trace_empty_batch {R : Type} `{Scalar R} (elements : list R) :
  sign_trace {| shape := [0; 6]; flat := elements |}
  = inr {| shape := [0; 1]; flat := [] |}
  /\ well_formed (R := R) {| shape := [0; 6]; flat := [] |}
  /\ well_formed (R := R) {| shape := [0; 1]; flat := [] |}.
Proof.
  split; [|split; reflexivity].
  unfold sign_trace. simpl.
  unfold reshape_col, ones_like, np_less, np_sum_axis1, slice_cols, rows.
  simpl. reflexivity.
Qed.

(** ** [np.unique] *)

Section Unique.
Local Open Scope Z_scope.
Implicit Types (x y p : Z) (l : list Z).

Lemma In_insert_sorted x y l :
  In y (insert_sorted x l) <-> y = x \/ In y l.
Proof.
  induction l as [|z l IH]; simpl.
  - intuition.
  - destruct (x <=? z); simpl; rewrite ?IH; intuition.
Qed.

Lemma insert_sorted_sorted x l :
  StronglySorted Z.le l -> StronglySorted Z.le (insert_sorted x l).
Proof.
  induction 1 as [|z l Hs IH Hz]; simpl.
  - repeat constructor.
  - destruct (Z.leb_spec x z) as [Hle|Hgt].
    + constructor; [constructor; assumption|].
      constructor; [exact Hle|].
      eapply List.Forall_impl; [|exact Hz]. intros w Hw. simpl in Hw. lia.
    + constructor; [exact IH|].
      apply List.Forall_forall. intros w Hw.
      apply In_insert_sorted in Hw as [->|Hw]; [lia|].
      rewrite List.Forall_forall in Hz. apply Hz. exact Hw.
Qed.

Lemma sort_sorted l : StronglySorted Z.le (sort l).
Proof.
  induction l as [|x l IH]; simpl; [constructor|].
  apply insert_sorted_sorted. exact IH.
Qed.

Lemma In_sort y l : In y (sort l) <-> In y l.
Proof.
  induction l as [|x l IH]; simpl; [reflexivity|].
  rewrite In_insert_sorted, IH. intuition.
Qed.

(** After a sorted pass, an element is kept when it is greater than the
    one before it: what is kept increases strictly, and every value of
    the list is the previous one or is kept. *)
Lemma keep_changes_sorted p l :
  StronglySorted Z.le (p :: l) ->
  StronglySorted Z.lt (p :: keep_changes p l)
  /\ (forall y, In y (keep_changes p l) -> In y l)
  /\ (forall y, In y l -> y = p \/ In y (keep_changes p l)).
Proof.
  revert p. induction l as [|x l IH]; intros p Hs; simpl.
  - repeat split; try (repeat constructor); intuition.
  - apply StronglySorted_inv in Hs as [Hs Hp].
    apply Forall_cons in Hp as [Hpx Hpl].
    destruct (IH x Hs) as (Hk & Hin & Hout).
    destruct (Z.eqb_spec x p) as [->|Hne].
    + repeat split; [exact Hk | auto |].
      intros y [->|Hy]; [auto|]. destruct (Hout y Hy); auto.
    + assert (Hlt : p < x) by lia.
      repeat split.
      * constructor; [exact Hk|].
        constructor; [exact Hlt|].
        apply StronglySorted_inv in Hk as [_ Hk].
        eapply List.Forall_impl; [|exact Hk]. intros w Hw. simpl in Hw. lia.
      * intros y [->|Hy]; [left; reflexivity | right; auto].
      * intros y [->|Hy]; [right; left; reflexivity|].
        destruct (Hout y Hy) as [->|Hy']; right; [left | right]; auto.
Qed.

Lemma np_unique_sorted l : StronglySorted Z.lt (np_unique l).
Proof.
  unfold np_unique. pose proof (sort_sorted l) as Hs.
  destruct (sort l) as [|x s]; [constructor|].
  apply keep_changes_sorted. exact Hs.
Qed.

Lemma In_np_unique y l : In y (np_unique l) <-> In y l.
Proof.
  rewrite <- (In_sort y l). unfold np_unique.
  pose proof (sort_sorted l) as Hs.
  destruct (sort l) as [|x s]; [reflexivity|].
  destruct (keep_changes_sorted x s Hs) as (_ & Hin & Hout).
  simpl. split.
  - intros [->|Hy]; auto.
  - intros [->|Hy]; [auto|]. destruct (Hout y Hy); auto.
Qed.

Lemma sorted_lt_NoDup l : StronglySorted Z.lt l -> NoDup l.
Proof.
  induction 1 as [|x l Hs IH Hx]; constructor; [|exact IH].
  intros Hin. apply list_elem_of_In in Hin.
  rewrite List.Forall_forall in Hx. specialize (Hx x Hin). lia.
Qed.

Lemma np_unique_NoDup l : NoDup (np_unique l).
Proof. apply sorted_lt_NoDup, np_unique_sorted. Qed.

End Unique.

(** ** Multiplying by a column of signs *)

Section Multiply.
Context {R : Type} `{Scalar R}.
Implicit Types (l : list R).

Lemma chunk_one i l x : l !! i = Some x -> chunk 1 i l = [x].
Proof.
  intros Hx. unfold chunk. rewrite Nat.mul_1_r.
  rewrite (drop_S _ _ _ Hx). reflexivity.
Qed.

Lemma broadcast_index n i : i < n -> (if n =? 1 then 0 else i) = i.
Proof. intros Hi. destruct (Nat.eqb_spec n 1); lia. Qed.

Lemma broadcast_shapes_column n k :
  broadcast_shapes [n; 1] [n; k] = Some [n; k].
Proof.
  unfold broadcast_shapes. cbn [rev app broadcast_rev].
  rewrite Nat.eqb_refl.
  destruct (Nat.eqb_spec 1 k) as [<-|Hk]; [reflexivity|].
  destruct (Nat.eqb_spec k 1) as [->|Hk']; reflexivity.
Qed.

(** One row of the product: the sign of the row times each of its
    values. *)
Lemma broadcast_flat_row (s : R) k (r : list R) :
  length r = k ->
  broadcast_flat mul [1] [k] [s] r = map (mul s) r.
Proof.
  intros Hr. cbn [broadcast_flat size_of fold_right]. rewrite Nat.eqb_refl.
  assert (Hgen : forall m, m <= k ->
    flat_map
      (fun i => match chunk 1 0 [s] with
                | [] => []
                | x :: _ =>
                    match chunk 1 (if k =? 1 then 0 else i) r with
                    | [] => []
                    | y :: _ => [mul x y]
                    end
                end) (seq 0 m)
    = map (mul s) (take m r)).
  { induction m as [|m IH]; intros Hm; [reflexivity|].
    rewrite seq_S, flat_map_app, IH by lia. simpl.
    rewrite (broadcast_index k m) by lia.
    destruct (lookup_lt_is_Some_2 r m) as [y Hy]; [lia|].
    rewrite (chunk_one m r y Hy). unfold chunk. simpl.
    rewrite (take_S_r r m y Hy), map_app. reflexivity. }
  rewrite (Hgen k) by lia. rewrite firstn_all2 by lia. reflexivity.
Qed.

End Multiply.

Section MultiplyColumn.
Context {R : Type} `{Scalar R}.

Lemma flat_map_ext_seq {B : Type} (f g : nat -> list B) n :
  (forall i, i < n -> f i = g i) ->
  flat_map f (seq 0 n) = flat_map g (seq 0 n).
Proof.
  intros Hfg. rewrite !flat_map_concat_map. f_equal.
  apply map_ext_in. intros i Hi. apply in_seq in Hi. apply Hfg. lia.
Qed.

(** A column of [n] signs times an (n, k) array: row [i] of the result
    is row [i] of the array, each value multiplied by sign [i]. *)
Lemma np_multiply_column (sign M : ndarray R) n k :
  well_formed sign -> shape sign = [n; 1] ->
  well_formed M -> shape M = [n; k] ->
  np_multiply sign M
  = inr {| shape := [n; k];
           flat := flat_map
                     (fun i => map (mul (nth i (flat sign) zero))
                                   (chunk k i (flat M)))
                     (seq 0 n) |}.
Proof.
  unfold well_formed. intros Hws Hs Hwm Hm.
  rewrite Hs in Hws. rewrite Hm in Hwm. simpl in Hws, Hwm.
  unfold np_multiply. rewrite Hs, Hm, broadcast_shapes_column.
  do 2 f_equal. cbn [length Nat.max pad_shape Nat.sub repeat app].
  cbn [broadcast_flat].
  replace (if n =? 1 then n else n) with n by (destruct (n =? 1); reflexivity).
  apply flat_map_ext_seq. intros i Hi.
  rewrite (broadcast_index n i Hi).
  cbn [size_of fold_right]. rewrite !Nat.mul_1_r.
  destruct (lookup_lt_is_Some_2 (flat sign) i) as [s Hsi]; [lia|].
  rewrite (chunk_one i _ s Hsi).
  rewrite (nth_lookup_Some _ _ zero _ Hsi).
  apply broadcast_flat_row. apply length_chunk. nia.
Qed.

Lemma item_np_multiply_column (sign M P : ndarray R) n k i j :
  well_formed sign -> shape sign = [n; 1] ->
  well_formed M -> shape M = [n; k] ->
  np_multiply sign M = inr P ->
  i < n -> j < k ->
  exists s m,
    item sign i 0 = Some s /\ item M i j = Some m
    /\ item P i j = Some (mul s m).
Proof.
  intros Hws Hs Hwm Hm HP Hi Hj.
  rewrite (np_multiply_column sign M n k Hws Hs Hwm Hm) in HP.
  injection HP as <-.
  unfold well_formed in Hws, Hwm. rewrite Hs in Hws. rewrite Hm in Hwm.
  simpl in Hws, Hwm.
  destruct (lookup_lt_is_Some_2 (flat sign) i) as [s Hsi]; [lia|].
  destruct (lookup_lt_is_Some_2 (flat M) (i * k + j)) as [m Hmij]; [nia|].
  exists s, m. unfold item. rewrite Hs, Hm. simpl.
  destruct (Nat.ltb_spec i n); [|lia].
  destruct (Nat.ltb_spec j k); [|lia]. simpl.
  rewrite Nat.mul_1_r, Nat.add_0_r.
  split; [exact Hsi|]. split; [exact Hmij|].
  rewrite (lookup_flat_map_seq _ k n i j); [| |exact Hi|exact Hj].
  - rewrite list_lookup_fmap, (lookup_chunk k i j _ Hj), Hmij.
    rewrite (nth_lookup_Some _ _ zero _ Hsi). reflexivity.
  - intros i' Hi'. rewrite length_map. apply length_chunk. nia.
Qed.

End MultiplyColumn.

(** ** The Field Synthesizer *)

Section Calculate.
Context {R SP : Type} `{Scalar R}.
Variable truth : SP -> bool.
Variable getScalarField : Field.t R SP -> Field.t R SP.


(** The loop appends, in order, the keyword arguments of the pairs it
    gets through; it gets through all of them unless one raises. *)
Lemma add_blocks_added pairs F F' err :
  add_blocks truth pairs F = (F', err) ->
  exists os,
    Field.added F' = Field.added F ++ os
    /\ (forall k o, os !! k = Some o ->
          exists sb mb, pairs !! k = Some (sb, mb)
                        /\ block_options truth sb mb = inr o)
    /\ (err = None -> length os = length pairs).
Proof.
  revert F. induction pairs as [|[sb mb] pairs IH]; intros F Hrun; simpl in Hrun.
  - injection Hrun as <- <-. exists []. rewrite app_nil_r.
    split; [reflexivity|]. split; [|reflexivity].
    intros k o Hk. rewrite lookup_nil in Hk. discriminate.
  - destruct (block_options truth sb mb) as [e|o0] eqn:Hopt.
    + injection Hrun as <- <-. exists []. rewrite app_nil_r.
      split; [reflexivity|]. split; [|discriminate].
      intros k o Hk. rewrite lookup_nil in Hk. discriminate.
    + destruct (IH _ Hrun) as (os & Hadd & Hos & Hlen).
      exists (o0 :: os). simpl in Hadd. rewrite <- app_assoc in Hadd.
      split; [exact Hadd|]. split.
      * intros [|k] o Hk; simpl in Hk.
        -- injection Hk as <-. exists sb, mb. auto.
        -- apply Hos. exact Hk.
      * intros He. simpl. rewrite (Hlen He). reflexivity.
Qed.

Lemma calculate_added frame S' :
  Frame.fieldOutputs frame !! "S" = Some S' ->
  exists S_MISES,
    Frame.fieldOutputs (calculate truth getScalarField frame).1 !! foName = Some S_MISES
    /\ (forall k o, Field.added S_MISES !! k = Some o ->
          exists sb mb,
            Field.bulkDataBlocks S' !! k = Some sb
            /\ Field.bulkDataBlocks (getScalarField S') !! k = Some mb
            /\ block_options truth sb mb = inr o)
    /\ ((calculate truth getScalarField frame).2 = None ->
        length (Field.added S_MISES)
        = length (zip (Field.bulkDataBlocks S')
                      (Field.bulkDataBlocks (getScalarField S')))).
Proof.
  intros HS. unfold calculate. rewrite HS.
  destruct (add_blocks truth _ _) as [F err] eqn:Hrun.
  destruct (add_blocks_added _ _ _ _ Hrun) as (os & Hadd & Hos & Hlen).
  simpl in Hadd. exists F. simpl. rewrite lookup_insert_eq.
  split; [reflexivity|]. rewrite Hadd. split; [|exact Hlen].
  intros k o Hk. destruct (Hos k o Hk) as (sb & mb & Hp & Ho).
  exists sb, mb. apply lookup_zip_with_Some in Hp as (x & y & Hxy & Hx & Hy).
  injection Hxy as -> ->. auto.
Qed.

Lemma emits_block_options frame k sb mb o :
  emits truth getScalarField frame k sb mb o -> block_options truth sb mb = inr o.
Proof.
  intros (S' & F & HS & _ & Hsb & Hmb & HF & Ho).
  destruct (calculate_added frame S' HS) as (F' & HF' & Hall & _).
  rewrite HF in HF'. injection HF' as <-.
  destruct (Hall k o Ho) as (sb' & mb' & Hsb' & Hmb' & Hopt).
  congruence.
Qed.

(** When [calculate] raises nothing, every pair of blocks is emitted. *)
Lemma calculate_emits_all frame S' k sb mb :
  Frame.fieldOutputs frame !! "S" = Some S' ->
  Frame.fieldOutputs frame !! foName = None ->
  Field.bulkDataBlocks S' !! k = Some sb ->
  Field.bulkDataBlocks (getScalarField S') !! k = Some mb ->
  (calculate truth getScalarField frame).2 = None ->
  exists o, emits truth getScalarField frame k sb mb o.
Proof.
  intros HS Hnew Hsb Hmb Hok.
  destruct (calculate_added frame S' HS) as (F & HF & _ & Hlen).
  specialize (Hlen Hok).
  destruct (lookup_lt_is_Some_2 (Field.added F) k) as [o Ho].
  { rewrite Hlen, length_zip_with.
    apply lookup_lt_Some in Hsb, Hmb. lia. }
  exists o, S', F. repeat split; assumption.
Qed.

(** What the keyword arguments of a block are made of. *)
Lemma block_options_inr sb mb o :
  block_options truth sb mb = inr o ->
  kw.position o = position mb
  /\ kw.instance o = instance mb
  /\ kw.labels o = np_unique (elementLabels mb)
  /\ kw.sectionPoint o
     = (if np_any truth (sectionPoint mb) then Some (sectionPoint mb) else None)
  /\ exists sign,
       sign_trace (data sb) = inr sign
       /\ np_multiply sign (data mb) = inr (kw.data o).
Proof.
  unfold block_options. intros Ho.
  destruct (sign_trace (data sb)) as [e|sign] eqn:Hsign; [discriminate|].
  destruct (np_multiply sign (data mb)) as [e|signed] eqn:Hmul; [discriminate|].
  destruct (np_any truth (sectionPoint mb)); injection Ho as <-; simpl;
    repeat split; exists sign; split; auto.
Qed.

(** C2. For the [k]-th pair of blocks of the stress field "S" and of its
    Mises field, of shapes (n, 6) and (n, c): when [calculate] raises
    nothing it emits a block for the pair, and the data of a block emitted
    for the pair has the shape of the Mises block's data, its value at
    (i, j) being the sign [sign_trace] gives row [i] of the stress block
    times the Mises value at (i, j). *)
Theorem calculate_signed_data frame S' k Sblock MISESblock n c :
  Frame.fieldOutputs frame !! "S" = Some S' ->
  Frame.fieldOutputs frame !! "S_MISES" = None ->
  Field.bulkDataBlocks S' !! k = Some Sblock ->
  Field.bulkDataBlocks (getScalarField S') !! k = Some MISESblock ->
  well_formed (data Sblock) -> shape (data Sblock) = [n; 6] ->
  well_formed (data MISESblock) -> shape (data MISESblock) = [n; c] ->
  ((calculate truth getScalarField frame).2 = None ->
   exists options,
     emits truth getScalarField frame k Sblock MISESblock options)
  /\ forall options,
       emits truth getScalarField frame k Sblock MISESblock options ->
       shape (kw.data options) = shape (data MISESblock)
       /\ exists sign,
            sign_trace (data Sblock) = inr sign
            /\ forall i j, i < n -> j < c ->
                 exists s m,
                   item sign i 0 = Some s
                   /\ item (data MISESblock) i j = Some m
                   /\ item (kw.data options) i j = Some (mul s m).
Proof.
  intros HS Hnew Hsb Hmb Hws Hss Hwm Hsm. split.
  - apply (calculate_emits_all frame S' k Sblock MISESblock HS Hnew Hsb Hmb).
  - intros options Hem. apply emits_block_options in Hem.
    apply block_options_inr in Hem
      as (_ & _ & _ & _ & sign & Hsign & Hmul).
    rewrite (sign_trace_rows _ n Hws Hss) in Hsign.
    injection Hsign as Hsign.
    assert (Hwsign : well_formed sign).
    { subst sign. unfold well_formed. simpl.
      rewrite length_map, (length_rows _ n 6 Hss). lia. }
    assert (Hssign : shape sign = [n; 1]) by (subst sign; reflexivity).
    split.
    + rewrite (np_multiply_column sign _ n c Hwsign Hssign Hwm Hsm) in Hmul.
      injection Hmul as <-. simpl. symmetry. exact Hsm.
    + exists sign. split.
      * rewrite (sign_trace_rows _ n Hws Hss). f_equal. exact Hsign.
      * intros i j Hi Hj.
        apply (item_np_multiply_column sign _ _ n c i j
                 Hwsign Hssign Hwm Hsm Hmul Hi Hj).
Qed.

(** C5. The element labels of an emitted block hold no label twice,
    whatever repeats the labels of the Mises block have; they are the
    values of those labels. *)
Theorem calculate_labels_unique frame k Sblock MISESblock options :
  emits truth getScalarField frame k Sblock MISESblock options ->
  NoDup (kw.labels options)
  /\ forall x, In x (kw.labels options) <-> In x (elementLabels MISESblock).
Proof.
  intros Hem. apply emits_block_options in Hem.
  apply block_options_inr in Hem as (_ & _ & -> & _).
  split; [apply np_unique_NoDup | intros x; apply In_np_unique].
Qed.

(** C9. The element labels of an emitted block are in strictly ascending
    order, whatever the order of the labels of the Mises block. *)
Theorem calculate_labels_ascending frame k Sblock MISESblock options :
  emits truth getScalarField frame k Sblock MISESblock options ->
  StronglySorted Z.lt (kw.labels options).
Proof.
  intros Hem. apply emits_block_options in Hem.
  apply block_options_inr in Hem as (_ & _ & -> & _).
  apply np_unique_sorted.
Qed.

(** C6. An emitted block carries a section point exactly when some entry
    of the Mises block's section-point value is true in Python's sense,
    and then it is that value; when no entry is, the keyword is absent. *)
Theorem calculate_section_point frame k Sblock MISESblock options :
  emits truth getScalarField frame k Sblock MISESblock options ->
  (is_Some (kw.sectionPoint options)
   <-> exists e, In e (sectionPoint MISESblock) /\ truth e = true)
  /\ (forall sp, kw.sectionPoint options = Some sp ->
        sp = sectionPoint MISESblock)
  /\ ((forall e, In e (sectionPoint MISESblock) -> truth e = false) ->
      kw.sectionPoint options = None).
Proof.
  intros Hem. apply emits_block_options in Hem.
  apply block_options_inr in Hem as (_ & _ & _ & Hsp & _).
  rewrite Hsp. unfold np_any.
  destruct (existsb truth (sectionPoint MISESblock)) eqn:Hany.
  - apply existsb_exists in Hany. split; [|split].
    + split; [intros _; exact Hany | intros _; eexists; reflexivity].
    + intros sp Heq. injection Heq as <-. reflexivity.
    + intros Hnone. destruct Hany as (e & He & Ht).
      rewrite (Hnone e He) in Ht. discriminate.
  - split; [|split].
    + split; [intros [sp Hs]; discriminate|].
      intros Hex. apply existsb_exists in Hex. congruence.
    + intros sp Heq. discriminate.
    + reflexivity.
Qed.

Lemma add_blocks_raises pairs F F' e :
  add_blocks truth pairs F = (F', Some e) ->
  length (Field.added F') < length (Field.added F) + length pairs.
Proof.
  revert F. induction pairs as [|[sb mb] pairs IH]; intros F Hrun;
    simpl in Hrun; [discriminate|].
  destruct (block_options truth sb mb) as [e'|o].
  - injection Hrun as <- _. simpl. lia.
  - specialize (IH _ Hrun). simpl in IH. rewrite length_app in IH.
    simpl in *. lia.
Qed.

(** X3. A frame on which [calculate] raised keeps the new field, with the
    blocks added before the exception and fewer blocks than there are
    pairs; holding "S_MISES", it does not pass the test of [fromOdb]
    again, so a later run does not complete it. *)
Theorem failed_frame_is_not_retried frame S' e :
  Frame.fieldOutputs frame !! "S" = Some S' ->
  (calculate truth getScalarField frame).2 = Some e ->
  exists S_MISES,
    Frame.fieldOutputs (calculate truth getScalarField frame).1 !! "S_MISES"
    = Some S_MISES
    /\ length (Field.added S_MISES)
       < length (zip (Field.bulkDataBlocks S')
                     (Field.bulkDataBlocks (getScalarField S')))
    /\ wants_calculate (calculate truth getScalarField frame).1 = false.
Proof.
  intros HS. unfold calculate. rewrite HS.
  destruct (add_blocks truth _ _) as [F err] eqn:Hrun. simpl.
  intros ->. exists F. split; [apply lookup_insert_eq|]. split.
  - apply add_blocks_raises in Hrun. simpl in Hrun. exact Hrun.
  - unfold wants_calculate, contains. simpl.
    rewrite lookup_insert_eq. apply andb_false_r.
Qed.

End Calculate.

(** ** The Frame Walker *)

Section Walk.
Context {R SP : Type} `{Scalar R}.
Variable truth : SP -> bool.
Variable getScalarField : Field.t R SP -> Field.t R SP.
Implicit Types (frame : Frame.t R SP) (step : Step.t R SP) (odb : Odb.t R SP).
Implicit Types (out : list Output) (w : World R SP).

(** One visit: the synthesizer is called exactly on a frame that passes the
    test, after its progress line is printed. *)
Lemma visit_frame_eq step frame out :
  visit_frame truth getScalarField step frame out
  = (synthesized truth getScalarField frame,
     out ++ (if wants_calculate frame then [progress step frame] else []),
     if wants_calculate frame
     then (calculate truth getScalarField frame).2 else None).
Proof.
  unfold visit_frame, synthesized.
  destruct (wants_calculate frame).
  - destruct (calculate truth getScalarField frame) as [frame' err].
    reflexivity.
  - rewrite app_nil_r. reflexivity.
Qed.

(** Once synthesized, a frame no longer passes the test. *)
Lemma wants_calculate_synthesized frame :
  wants_calculate (synthesized truth getScalarField frame) = false.
Proof.
  unfold synthesized. destruct (wants_calculate frame) eqn:Hw; [|exact Hw].
  unfold wants_calculate, contains in Hw.
  destruct (Frame.fieldOutputs frame !! "S") as [S'|] eqn:HS; [|discriminate].
  unfold calculate. rewrite HS.
  destruct (add_blocks truth _ _) as [F err]. simpl.
  unfold wants_calculate, contains. simpl.
  rewrite lookup_insert_eq. apply andb_false_r.
Qed.

Lemma frames_loop step frames out frames' out' :
  for_each_mut (visit_frame truth getScalarField step) frames out
  = (frames', out', None) ->
  frames' = map (synthesized truth getScalarField) frames
  /\ out' = out ++ map (progress step) (filter wants_calculate frames).
Proof.
  revert out frames' out'.
  induction frames as [|frame frames IH]; intros out frames' out' Hrun;
    simpl in Hrun.
  - injection Hrun as <- <-. rewrite app_nil_r. auto.
  - rewrite visit_frame_eq in Hrun.
    destruct (wants_calculate frame) eqn:Hw.
    + destruct ((calculate truth getScalarField frame).2); [discriminate|].
      destruct (for_each_mut _ frames _) as [[rest out''] r] eqn:Hrest.
      injection Hrun as <- <- ->.
      destruct (IH _ _ _ Hrest) as [-> ->].
      simpl. rewrite <- app_assoc.
      unfold filter. simpl. fold (filter wants_calculate frames).
      rewrite decide_True by (rewrite Hw; exact I). auto.
    + destruct (for_each_mut _ frames _) as [[rest out''] r] eqn:Hrest.
      injection Hrun as <- <- ->.
      destruct (IH _ _ _ Hrest) as [-> ->].
      simpl. rewrite app_nil_r.
      unfold filter. simpl. fold (filter wants_calculate frames).
      rewrite decide_False by (rewrite Hw; exact id). auto.
Qed.

Lemma frames_loop_skip step frames out :
  Forall (fun frame => wants_calculate frame = false) frames ->
  for_each_mut (visit_frame truth getScalarField step) frames out
  = (frames, out, None).
Proof.
  induction 1 as [|frame frames Hw _ IH]; simpl; [reflexivity|].
  rewrite visit_frame_eq. unfold synthesized. rewrite Hw, app_nil_r, IH.
  reflexivity.
Qed.

(** A step after the outer loop went through it without an exception. *)
Lemma steps_loop steps out steps' out' :
  for_each_mut (visit_step truth getScalarField) steps out
  = (steps', out', None) ->
  steps'
  = map (fun step =>
           {| Step.name := Step.name step;
              Step.frames :=
                map (synthesized truth getScalarField) (Step.frames step) |})
        steps
  /\ out' = out ++ flat_map progress_lines steps.
Proof.
  revert out steps' out'.
  induction steps as [|step steps IH]; intros out steps' out' Hrun;
    simpl in Hrun.
  - injection Hrun as <- <-. rewrite app_nil_r. auto.
  - unfold visit_step at 1 in Hrun.
    destruct (for_each_mut (visit_frame truth getScalarField step) _ _)
      as [[frames' out1] err] eqn:Hframes.
    destruct err as [e|]; [discriminate|].
    destruct (for_each_mut (visit_step truth getScalarField) steps out1)
      as [[rest out2] r] eqn:Hrest.
    injection Hrun as <- <- ->.
    destruct (frames_loop _ _ _ _ _ Hframes) as [-> ->].
    destruct (IH _ _ _ Hrest) as [-> ->].
    simpl. rewrite <- app_assoc. auto.
Qed.

Lemma steps_loop_skip steps out :
  Forall (fun step =>
            Forall (fun frame => wants_calculate frame = false)
                   (Step.frames step)) steps ->
  for_each_mut (visit_step truth getScalarField) steps out
  = (steps, out, None).
Proof.
  induction 1 as [|step steps Hw _ IH]; simpl; [reflexivity|].
  unfold visit_step at 1. rewrite (frames_loop_skip _ _ _ Hw), IH.
  destruct step. reflexivity.
Qed.

Lemma walk_settled odb out :
  settled odb -> walk truth getScalarField odb out = (odb, out, None).
Proof.
  intros Hs. unfold walk. rewrite (steps_loop_skip _ _ Hs).
  destruct odb. reflexivity.
Qed.

Lemma walk_ok odb out odb' out' :
  walk truth getScalarField odb out = (odb', out', None) ->
  Odb.steps odb'
  = map (fun step =>
           {| Step.name := Step.name step;
              Step.frames :=
                map (synthesized truth getScalarField) (Step.frames step) |})
        (Odb.steps odb)
  /\ out' = out ++ flat_map progress_lines (Odb.steps odb)
  /\ settled odb'.
Proof.
  unfold walk. intros Hrun.
  destruct (for_each_mut _ _ _) as [[steps' out1] err] eqn:Hsteps.
  injection Hrun as <- <- ->.
  destruct (steps_loop _ _ _ _ Hsteps) as [-> ->].
  split; [reflexivity|]. split; [reflexivity|].
  unfold settled. simpl. apply List.Forall_forall. intros step' Hin.
  apply in_map_iff in Hin as (step & <- & _). simpl.
  apply List.Forall_forall. intros frame' Hin.
  apply in_map_iff in Hin as (frame & <- & _).
  apply wants_calculate_synthesized.
Qed.

Lemma wants_calculate_iff frame :
  wants_calculate frame = true
  <-> is_Some (Frame.fieldOutputs frame !! "S")
      /\ Frame.fieldOutputs frame !! "S_MISES" = None.
Proof.
  unfold wants_calculate, contains, foName.
  destruct (Frame.fieldOutputs frame !! "S") as [S'|];
    destruct (Frame.fieldOutputs frame !! "S_MISES") as [F|]; simpl;
    split; try discriminate; auto.
  - intros [_ Hn]. discriminate.
  - intros [[x Hx] _]. discriminate.
  - intros [[x Hx] _]. discriminate.
Qed.

Lemma fromOdb_settled odbName w odb :
  files w !! odbName = Some odb -> settled odb ->
  fromOdb truth getScalarField odbName w = (w, None).
Proof.
  intros Hf Hs. unfold fromOdb. rewrite Hf, (walk_settled _ _ Hs).
  rewrite (insert_id _ _ _ Hf). destruct w. reflexivity.
Qed.

(** C4. [fromOdb] calls the synthesizer on a frame exactly when the frame
    holds "S" and does not hold "S_MISES": a run that raises nothing leaves
    every such frame as [calculate] leaves it and every other frame as it
    was, and prints the progress lines of those frames, in stored order.
    No frame passes the test afterwards, and a second run changes nothing:
    no field, no output. The same holds of a first run on a database in
    which every frame with "S" already holds "S_MISES". *)
Theorem fromOdb_guard_idempotent odbName w odb w' :
  files w !! odbName = Some odb ->
  fromOdb truth getScalarField odbName w = (w', None) ->
  (forall frame,
     wants_calculate frame = true
     <-> is_Some (Frame.fieldOutputs frame !! "S")
         /\ Frame.fieldOutputs frame !! "S_MISES" = None)
  /\ (exists odb',
        files w' = <[odbName := odb']> (files w)
        /\ Odb.steps odb'
           = map (fun step =>
                    {| Step.name := Step.name step;
                       Step.frames :=
                         map (fun frame =>
                                if wants_calculate frame
                                then (calculate truth getScalarField frame).1
                                else frame)
                             (Step.frames step) |})
                 (Odb.steps odb)
        /\ stdout w'
           = stdout w
             ++ flat_map
                  (fun step =>
                     map (progress step)
                         (filter wants_calculate (Step.frames step)))
                  (Odb.steps odb)
        /\ settled odb')
  /\ fromOdb truth getScalarField odbName w' = (w', None)
  /\ (settled odb -> w' = w).
Proof.
  intros Hf Hrun. split; [exact wants_calculate_iff|].
  pose proof Hrun as Hrun'. unfold fromOdb in Hrun. rewrite Hf in Hrun.
  destruct (walk truth getScalarField odb (stdout w)) as [[odb' out'] err]
    eqn:Hwalk.
  injection Hrun as <- ->.
  destruct (walk_ok _ _ _ _ Hwalk) as (Hsteps & Hout & Hset).
  split; [|split].
  - exists odb'. simpl. repeat split; assumption.
  - apply (fromOdb_settled odbName _ odb'); [|exact Hset].
    simpl. apply lookup_insert_eq.
  - intros Hs. rewrite (fromOdb_settled odbName w odb Hf Hs) in Hrun'.
    injection Hrun' as <-. reflexivity.
Qed.

End Walk.

(** ** The argument loop *)

Section Main.
Context {R SP : Type} `{Scalar R}.
Variable truth : SP -> bool.
Variable getScalarField : Field.t R SP -> Field.t R SP.
Implicit Types (w : World R SP) (argv args : list string) (arg name : string).

Lemma for_each_stops {G A : Type} (body : A -> G -> G * option PyError)
    (pre : list A) (x : A) (post : list A) (g g1 g2 : G) (e : PyError) :
  for_each body pre g = (g1, None) ->
  body x g1 = (g2, Some e) ->
  for_each body (pre ++ x :: post) g = (g2, Some e).
Proof.
  revert g. induction pre as [|y pre IH]; intros g Hpre Hx; simpl in *.
  - injection Hpre as ->. rewrite Hx. reflexivity.
  - destruct (body y g) as [g' [e'|]]; [discriminate|]. apply IH; assumption.
Qed.

(** Handling an argument leaves every other database as it was. *)
Lemma handle_arg_other argv arg w name :
  name <> arg ->
  files (handle_arg truth getScalarField argv arg w).1 !! name
  = files w !! name.
Proof.
  intros Hne. unfold handle_arg.
  destruct (String.eqb "--help" arg); [reflexivity|].
  destruct (String.eqb "--test" arg); [reflexivity|].
  set (w0 := if 2 <? length argv then print (Line arg) w else w).
  assert (Hw0 : files w0 = files w) by (subst w0; destruct (2 <? _); reflexivity).
  rewrite <- Hw0. unfold fromOdb.
  destruct (files w0 !! arg) as [odb|]; [|reflexivity].
  destruct (walk truth getScalarField odb (stdout w0)) as [[odb' out'] err].
  simpl. apply lookup_insert_ne. congruence.
Qed.

Lemma for_each_other argv args w name :
  ~ In name args ->
  files (for_each (handle_arg truth getScalarField argv) args w).1 !! name
  = files w !! name.
Proof.
  revert w. induction args as [|arg args IH]; intros w Hnot; simpl.
  - reflexivity.
  - pose proof (handle_arg_other argv arg w name) as Harg.
    destruct (handle_arg truth getScalarField argv arg w) as [w' [e|]];
      simpl in Harg.
    + apply Harg. intros ->. apply Hnot. left. reflexivity.
    + rewrite IH.
      * apply Harg. intros ->. apply Hnot. left. reflexivity.
      * intros Hin. apply Hnot. right. exact Hin.
Qed.

(** C7, as the code has it. The archives are handled one after the other,
    in the order given, and the first exception ends the loop: the
    arguments after the one that raised are never handled, and a database
    named only among them is left as it was. *)
Theorem main_stops_at_first_failure argv pre arg post w w1 w2 e :
  tail argv = pre ++ arg :: post ->
  for_each (handle_arg truth getScalarField argv) pre w = (w1, None) ->
  handle_arg truth getScalarField argv arg w1 = (w2, Some e) ->
  main truth getScalarField argv w = (w2, Some e)
  /\ forall name,
       ~ In name pre -> name <> arg -> files w2 !! name = files w !! name.
Proof.
  intros Hargs Hpre Harg. unfold main. rewrite Hargs. split.
  - apply (for_each_stops _ pre arg post w w1 w2 e Hpre Harg).
  - intros name Hnot Hne.
    pose proof (handle_arg_other argv arg w1 name Hne) as H1.
    rewrite Harg in H1. simpl in H1. rewrite H1.
    pose proof (for_each_other argv pre w name Hnot) as H2.
    rewrite Hpre in H2. exact H2.
Qed.

Lemma for_each_options argv args w :
  Forall (fun arg => arg = "--help" \/ arg = "--test") args ->
  for_each (handle_arg truth getScalarField argv) args w
  = ({| files := files w;
        stdout := stdout w
                  ++ map (fun arg => if String.eqb "--help" arg
                                     then Line __doc__ else DoctestReport)
                         args |}, None).
Proof.
  intros Hall. revert w. induction Hall as [|arg args Harg _ IH]; intros w; simpl.
  - rewrite app_nil_r. destruct w. reflexivity.
  - unfold handle_arg at 1. destruct Harg as [-> | ->]; simpl;
      rewrite IH; simpl; rewrite <- app_assoc; reflexivity.
Qed.

(** C8, as the code has it. "--help" prints the module documentation and
    "--test" runs the doctests, and neither opens a database; the loop
    then goes on to the next argument. So no archive is processed when
    every argument is one of the two, and the arguments after a "--help"
    or a "--test" are handled as usual. *)
Theorem help_and_test_do_not_exit argv w :
  handle_arg truth getScalarField argv "--help" w
  = (print (Line __doc__) w, None)
  /\ handle_arg truth getScalarField argv "--test" w
     = (print DoctestReport w, None)
  /\ (Forall (fun arg => arg = "--help" \/ arg = "--test") (tail argv) ->
      main truth getScalarField argv w
      = ({| files := files w;
            stdout := stdout w
                      ++ map (fun arg => if String.eqb "--help" arg
                                         then Line __doc__ else DoctestReport)
                             (tail argv) |}, None))
  /\ (forall prog option rest,
        argv = prog :: option :: rest ->
        option = "--help" \/ option = "--test" ->
        main truth getScalarField argv w
        = for_each (handle_arg truth getScalarField argv) rest
            (print (if String.eqb "--help" option
                    then Line __doc__ else DoctestReport) w)).
Proof.
  split; [reflexivity|]. split; [reflexivity|]. split.
  - intros Hall. unfold main. apply for_each_options. exact Hall.
  - intros prog option rest -> [-> | ->]; reflexivity.
Qed.

End Main.

(** ** The properties on the example databases *)

Ltac example_emits :=
  exists (stress_field [example_block]); eexists;
  repeat split; vm_compute; reflexivity.

Lemma calculate_signed_data_example :
  ((calculate truth_Z mises_field example_frame).2 = None ->
   exists options,
     emits truth_Z mises_field example_frame 0
           example_block (mises_block example_block) options)
  /\ forall options,
       emits truth_Z mises_field example_frame 0
             example_block (mises_block example_block) options ->
       shape (kw.data options) = shape (data (mises_block example_block))
       /\ exists sign,
            sign_trace (data example_block) = inr sign
            /\ forall i j, i < 3 -> j < 1 ->
                 exists s m,
                   item sign i 0 = Some s
                   /\ item (data (mises_block example_block)) i j = Some m
                   /\ item (kw.data options) i j = Some (mul s m).
Proof.
  apply (calculate_signed_data truth_Z mises_field example_frame
           (stress_field [example_block]) 0
           example_block (mises_block example_block) 3 1);
    vm_compute; reflexivity.
Defined.

Lemma calculate_labels_unique_example :
  NoDup (kw.labels example_options)
  /\ forall x, In x (kw.labels example_options)
               <-> In x (elementLabels (mises_block example_block)).
Proof.
  apply (calculate_labels_unique truth_Z mises_field example_frame 0
           example_block (mises_block example_block) example_options).
  example_emits.
Defined.

Lemma calculate_labels_ascending_example :
  StronglySorted Z.lt (kw.labels example_options).
Proof.
  apply (calculate_labels_ascending truth_Z mises_field example_frame 0
           example_block (mises_block example_block) example_options).
  example_emits.
Defined.

Lemma calculate_section_point_example :
  (is_Some (kw.sectionPoint example_options)
   <-> exists e, In e (sectionPoint (mises_block example_block))
                 /\ truth_Z e = true)
  /\ (forall sp, kw.sectionPoint example_options = Some sp ->
        sp = sectionPoint (mises_block example_block))
  /\ ((forall e, In e (sectionPoint (mises_block example_block)) ->
         truth_Z e = false) ->
      kw.sectionPoint example_options = None).
Proof.
  apply (calculate_section_point truth_Z mises_field example_frame 0
           example_block (mises_block example_block) example_options).
  example_emits.
Defined.

Lemma fromOdb_guard_idempotent_example :
  (forall frame : Frame.t float Z,
     wants_calculate frame = true
     <-> is_Some (Frame.fieldOutputs frame !! "S")
         /\ Frame.fieldOutputs frame !! "S_MISES" = None)
  /\ (exists odb',
        files (fromOdb truth_Z mises_field "b.odb" example_world).1
        = <["b.odb" := odb']> (files example_world)
        /\ Odb.steps odb'
           = map (fun step =>
                    {| Step.name := Step.name step;
                       Step.frames :=
                         map (fun frame =>
                                if wants_calculate frame
                                then (calculate truth_Z mises_field frame).1
                                else frame)
                             (Step.frames step) |})
                 (Odb.steps example_odb)
        /\ stdout (fromOdb truth_Z mises_field "b.odb" example_world).1
           = stdout example_world
             ++ flat_map
                  (fun step =>
                     map (progress step)
                         (filter wants_calculate (Step.frames step)))
                  (Odb.steps example_odb)
        /\ settled odb')
  /\ fromOdb truth_Z mises_field "b.odb"
       (fromOdb truth_Z mises_field "b.odb" example_world).1
     = ((fromOdb truth_Z mises_field "b.odb" example_world).1, None)
  /\ (settled example_odb ->
      (fromOdb truth_Z mises_field "b.odb" example_world).1 = example_world).
Proof.
  apply (fromOdb_guard_idempotent truth_Z mises_field "b.odb" example_world
           example_odb (fromOdb truth_Z mises_field "b.odb" example_world).1);
    vm_compute; reflexivity.
Defined.

(** C7. Two archives on the command line, the first with a stress block of
    five components: its [AssertionError] ends the run. The second archive
    is not echoed and not opened, and its frame still waits for its signed
    Mises field, which the loop of the specification would have given
    it. *)
Lemma later_archive_not_attempted :
  (main truth_Z mises_field ["s_mises.py"; "a.odb"; "b.odb"] example_world).2
  = Some (AssertionError
            "Data elements must be in Abaqus symmetric tensor format")
  /\ stdout
       (main truth_Z mises_field ["s_mises.py"; "a.odb"; "b.odb"]
          example_world).1
     = [Line "a.odb"; Line "Step-1 Increment 1"]
  /\ pending
     <$> files
           (main truth_Z mises_field ["s_mises.py"; "a.odb"; "b.odb"]
              example_world).1 !! "b.odb"
     = Some true
  /\ pending
     <$> files
           (main_isolated truth_Z mises_field
              ["s_mises.py"; "a.odb"; "b.odb"] example_world) !! "b.odb"
     = Some false.
Proof. vm_compute. repeat split. Qed.

Lemma main_stops_at_first_failure_example :
  main truth_Z mises_field ["s_mises.py"; "a.odb"; "b.odb"] example_world
  = ((handle_arg truth_Z mises_field ["s_mises.py"; "a.odb"; "b.odb"]
        "a.odb" example_world).1,
     Some (AssertionError
             "Data elements must be in Abaqus symmetric tensor format"))
  /\ forall name,
       ~ In name [] -> name <> "a.odb" ->
       files (handle_arg truth_Z mises_field ["s_mises.py"; "a.odb"; "b.odb"]
                "a.odb" example_world).1 !! name
       = files example_world !! name.
Proof.
  apply (main_stops_at_first_failure truth_Z mises_field
           ["s_mises.py"; "a.odb"; "b.odb"] [] "a.odb" ["b.odb"]
           example_world example_world);
    vm_compute; reflexivity.
Defined.

(** C8. "--help" followed by an archive: the documentation is printed, the
    program does not exit, and the archive is processed. The same with
    "--test". *)
Lemma help_then_archive_is_processed :
  main truth_Z mises_field ["s_mises.py"; "--help"; "b.odb"] example_world
  = (fromOdb truth_Z mises_field "b.odb"
       {| files := files example_world;
          stdout := [Line __doc__; Line "b.odb"] |})
  /\ stdout
       (main truth_Z mises_field ["s_mises.py"; "--help"; "b.odb"]
          example_world).1
     = [Line __doc__; Line "b.odb"; Line "Step-1 Increment 1"]
  /\ pending <$> files example_world !! "b.odb" = Some true
  /\ pending
     <$> files
           (main truth_Z mises_field ["s_mises.py"; "--help"; "b.odb"]
              example_world).1 !! "b.odb"
     = Some false
  /\ pending
     <$> files
           (main truth_Z mises_field ["s_mises.py"; "--test"; "b.odb"]
              example_world).1 !! "b.odb"
     = Some false.
Proof. vm_compute. repeat split. Qed.

Lemma sign_trace_exact_example :
  exists sign a0 a1 a2,
    sign_trace doctest_input = inr sign
    /\ shape sign = [3; 1] /\ well_formed sign
    /\ item doctest_input 0 0 = Some a0
    /\ item doctest_input 0 1 = Some a1
    /\ item doctest_input 0 2 = Some a2
    /\ item sign 0 0
       = Some (if ltb (add (add a0 a1) a2) zero then minus_one else one).
Proof.
  apply (sign_trace_exact doctest_input 3 0); [reflexivity | reflexivity | lia].
Defined.

Lemma sign_trace_ordered_example :
  exists sign a0 a1 a2,
    sign_trace doctest_input = inr sign
    /\ shape sign = [3; 1]
    /\ item doctest_input 1 0 = Some a0
    /\ item doctest_input 1 1 = Some a1
    /\ item doctest_input 1 2 = Some a2
    /\ (ltb (add (add a0 a1) a2) zero = negb (leb zero (add (add a0 a1) a2)) ->
        item sign 1 0
        = Some (if leb zero (add (add a0 a1) a2) then one else minus_one)).
Proof.
  apply (sign_trace_ordered doctest_input 3 1); [reflexivity | reflexivity | lia].
Defined.

Lemma failed_frame_is_not_retried_example :
  exists S_MISES,
    Frame.fieldOutputs (calculate truth_Z mises_field narrow_frame).1
      !! "S_MISES"
    = Some S_MISES
    /\ length (Field.added S_MISES)
       < length (zip (Field.bulkDataBlocks
                        (stress_field [example_block; narrow_block]))
                     (Field.bulkDataBlocks
                        (mises_field
                           (stress_field [example_block; narrow_block]))))
    /\ wants_calculate (calculate truth_Z mises_field narrow_frame).1 = false.
Proof.
  apply (failed_frame_is_not_retried truth_Z mises_field narrow_frame
           (stress_field [example_block; narrow_block])
           (AssertionError
              "Data elements must be in Abaqus symmetric tensor format"));
    vm_compute; reflexivity.
Defined.

(** * Further properties of the code *)

(** ** [sign_trace]: one row at a time *)

Section SignTraceLocal.
Context {R : Type} `{Scalar R}.

(** X4. The sign of a row depends on the first three components of that
    row and on nothing else: not on its shear components, not on the other
    rows, not on the number of rows. *)
Theorem sign_trace_row_local (A B sa sb : ndarray R) n m i j :
  well_formed A -> shape A = [n; 6] ->
  well_formed B -> shape B = [m; 6] ->
  i < n -> j < m ->
  item A i 0 = item B j 0 ->
  item A i 1 = item B j 1 ->
  item A i 2 = item B j 2 ->
  sign_trace A = inr sa -> sign_trace B = inr sb ->
  item sa i 0 = item sb j 0.
Proof.
  intros HwA HsA HwB HsB Hi Hj H0 H1 H2 Ha Hb.
  destruct (sign_trace_item A n i HwA HsA Hi)
    as (sa' & a0 & a1 & a2 & Ha' & _ & _ & Ha0 & Ha1 & Ha2 & Hia).
  destruct (sign_trace_item B m j HwB HsB Hj)
    as (sb' & b0 & b1 & b2 & Hb' & _ & _ & Hb0 & Hb1 & Hb2 & Hib).
  rewrite Ha in Ha'. injection Ha' as <-.
  rewrite Hb in Hb'. injection Hb' as <-.
  rewrite Ha0, Hb0 in H0. rewrite Ha1, Hb1 in H1. rewrite Ha2, Hb2 in H2.
  injection H0 as ->. injection H1 as ->. injection H2 as ->.
  rewrite Hia, Hib. reflexivity.
Qed.

End SignTraceLocal.

Lemma sign_trace_row_local_example :
  item {| shape := [3; 1]; flat := [-1; 1; 1]%float |} 2 0
  = item {| shape := [2; 1]; flat := [1; -1]%float |} 0 0.
Proof.
  apply (sign_trace_row_local doctest_input shuffled_input _ _ 3 2 2 0);
    try reflexivity; try lia; vm_compute; reflexivity.
Defined.

(** ** [calculate]: when it raises and what it writes *)

Section CalculateRuns.
Context {R SP : Type} `{Scalar R}.
Variable truth : SP -> bool.
Variable getScalarField : Field.t R SP -> Field.t R SP.
Implicit Types (frame : Frame.t R SP) (F : Field.t R SP).

(** A conforming pair of blocks raises nothing, and its signed data is a
    well-formed array. *)
Lemma block_options_conforming (pair : FieldBulkData R SP * FieldBulkData R SP) :
  conforming pair ->
  exists o, block_options truth pair.1 pair.2 = inr o
            /\ well_formed (kw.data o)
            /\ shape (kw.data o) = shape (data pair.2).
Proof.
  intros (n & c & Hws & Hss & Hwm & Hsm). unfold block_options.
  rewrite (sign_trace_rows _ n Hws Hss).
  set (sign := {| shape := [n; 1]; flat := map sign_of_row (rows (data pair.1)) |}).
  assert (Hwsign : well_formed sign).
  { unfold well_formed. simpl.
    rewrite length_map, (length_rows _ n 6 Hss). lia. }
  rewrite (np_multiply_column sign _ n c Hwsign eq_refl Hwm Hsm).
  assert (Hwf : well_formed
            {| shape := [n; c];
               flat := flat_map
                         (fun i => map (mul (nth i (flat sign) zero))
                                       (chunk c i (flat (data pair.2))))
                         (seq 0 n) |}).
  { unfold well_formed. simpl.
    rewrite (length_flat_map_seq _ c n); [lia|].
    intros i Hi. rewrite length_map. apply length_chunk.
    unfold well_formed in Hwm. rewrite Hsm in Hwm. simpl in Hwm. nia. }
  destruct (np_any truth (sectionPoint pair.2)); eexists;
    (split; [reflexivity|]); simpl; rewrite Hsm; auto.
Qed.

Lemma add_blocks_conforming pairs F :
  Forall conforming pairs ->
  exists F',
    add_blocks truth pairs F = (F', None)
    /\ length (Field.added F') = length (Field.added F) + length pairs
    /\ Forall (fun o => well_formed (kw.data o))
              (drop (length (Field.added F)) (Field.added F')).
Proof.
  intros Hall. revert F.
  induction Hall as [|[sb mb] pairs Hp _ IH]; intros F; simpl.
  - exists F. split; [reflexivity|]. split; [lia|].
    rewrite drop_all. constructor.
  - destruct (block_options_conforming _ Hp) as (o & Ho & Hwf & _).
    simpl in Ho. rewrite Ho.
    destruct (IH (addData F o)) as (F' & Hrun & Hlen & Hwfs).
    exists F'. split; [exact Hrun|].
    simpl in Hlen, Hwfs. rewrite length_app in Hlen, Hwfs. simpl in Hlen, Hwfs.
    split; [lia|].
    destruct (add_blocks_added truth _ _ _ _ Hrun) as (os & Hadd & _ & _).
    simpl in Hadd. rewrite Hadd in Hwfs |- *.
    rewrite <- app_assoc. rewrite drop_app_length.
    rewrite <- app_assoc in Hwfs.
    replace (length (Field.added F) + 1) with (length (Field.added F ++ [o])) in Hwfs
      by (rewrite length_app; reflexivity).
    rewrite app_assoc, drop_app_length in Hwfs.
    simpl. constructor; assumption.
Qed.

(** X5. [calculate] raises nothing on a frame with the field "S" whose
    paired blocks all conform (stress blocks well-formed of shape (n, 6),
    Mises blocks well-formed with as many rows): it then adds one block
    per pair, each with well-formed data. *)
Theorem calculate_succeeds frame S' :
  Frame.fieldOutputs frame !! "S" = Some S' ->
  Forall conforming
         (zip (Field.bulkDataBlocks S')
              (Field.bulkDataBlocks (getScalarField S'))) ->
  (calculate truth getScalarField frame).2 = None
  /\ exists S_MISES,
       Frame.fieldOutputs (calculate truth getScalarField frame).1 !! "S_MISES"
       = Some S_MISES
       /\ length (Field.added S_MISES)
          = length (zip (Field.bulkDataBlocks S')
                        (Field.bulkDataBlocks (getScalarField S')))
       /\ Forall (fun o => well_formed (kw.data o)) (Field.added S_MISES).
Proof.
  intros HS Hall. unfold calculate. rewrite HS.
  match goal with
  | |- context [add_blocks truth ?ps ?F0] =>
      destruct (add_blocks_conforming ps F0 Hall) as (F' & Hrun & Hlen & Hwf);
      rewrite Hrun
  end.
  simpl in *. split; [reflexivity|]. exists F'.
  rewrite lookup_insert_eq. rewrite drop_0 in Hwf. auto.
Qed.

Lemma add_blocks_app pre post F F1 :
  add_blocks truth pre F = (F1, None) ->
  add_blocks truth (pre ++ post) F = add_blocks truth post F1.
Proof.
  revert F. induction pre as [|[sb mb] pre IH]; intros F Hpre; simpl in *.
  - injection Hpre as ->. reflexivity.
  - destruct (block_options truth sb mb) as [e|o]; [discriminate|].
    apply IH. exact Hpre.
Qed.

(** X6. The exception of [sign_trace] leaves [calculate] unchanged: when
    the stress block of pair [k] is the first that [sign_trace] refuses,
    the pairs before it conforming, [calculate] raises that very
    exception, and the new field holds the [k] blocks added before it. *)
Theorem calculate_propagates frame S' k Sblock MISESblock e :
  Frame.fieldOutputs frame !! "S" = Some S' ->
  Field.bulkDataBlocks S' !! k = Some Sblock ->
  Field.bulkDataBlocks (getScalarField S') !! k = Some MISESblock ->
  Forall conforming
         (take k (zip (Field.bulkDataBlocks S')
                      (Field.bulkDataBlocks (getScalarField S')))) ->
  sign_trace (data Sblock) = inl e ->
  (calculate truth getScalarField frame).2 = Some e
  /\ exists S_MISES,
       Frame.fieldOutputs (calculate truth getScalarField frame).1 !! "S_MISES"
       = Some S_MISES
       /\ length (Field.added S_MISES) = k.
Proof.
  intros HS Hsb Hmb Hpre Hraise. unfold calculate. rewrite HS.
  set (pairs := zip (Field.bulkDataBlocks S')
                    (Field.bulkDataBlocks (getScalarField S'))) in *.
  assert (Hk : pairs !! k = Some (Sblock, MISESblock)).
  { subst pairs. apply lookup_zip_with_Some. eauto. }
  rewrite <- (take_drop_middle pairs k _ Hk).
  match goal with
  | |- context [add_blocks truth _ ?F0] =>
      destruct (add_blocks_conforming (take k pairs) F0 Hpre)
        as (F1 & Hrun & Hlen & _);
      rewrite (add_blocks_app _ _ _ _ Hrun)
  end.
  simpl. unfold block_options. rewrite Hraise. simpl.
  split; [reflexivity|]. exists F1. rewrite lookup_insert_eq.
  split; [reflexivity|]. simpl in Hlen. rewrite Hlen, length_take.
  apply lookup_lt_Some in Hk. lia.
Qed.

Lemma add_blocks_meta pairs F F' err :
  add_blocks truth pairs F = (F', err) ->
  Field.name F' = Field.name F
  /\ Field.description F' = Field.description F
  /\ Field.type F' = Field.type F
  /\ Field.bulkDataBlocks F' = Field.bulkDataBlocks F.
Proof.
  revert F. induction pairs as [|[sb mb] pairs IH]; intros F Hrun;
    simpl in Hrun.
  - injection Hrun as <- _. auto.
  - destruct (block_options truth sb mb) as [e|o].
    + injection Hrun as <- _. auto.
    + apply IH in Hrun. exact Hrun.
Qed.

(** X7. The field [calculate] attaches is named "S_MISES", described as
    "Signed Mises equivalent stress" and typed as the Mises field; block
    [k] added to it carries the position and the instance of block [k] of
    the Mises field. This holds whether or not [calculate] raised. *)
Theorem calculate_metadata frame S' :
  Frame.fieldOutputs frame !! "S" = Some S' ->
  exists S_MISES,
    Frame.fieldOutputs (calculate truth getScalarField frame).1 !! "S_MISES"
    = Some S_MISES
    /\ Field.name S_MISES = "S_MISES"
    /\ Field.description S_MISES = "Signed Mises equivalent stress"
    /\ Field.type S_MISES = Field.type (getScalarField S')
    /\ forall k o,
         Field.added S_MISES !! k = Some o ->
         exists MISESblock,
           Field.bulkDataBlocks (getScalarField S') !! k = Some MISESblock
           /\ kw.position o = position MISESblock
           /\ kw.instance o = instance MISESblock.
Proof.
  intros HS.
  destruct (calculate_added truth getScalarField frame S' HS)
    as (F & HF & Hall & _).
  exists F. split; [exact HF|].
  unfold calculate in HF. rewrite HS in HF.
  destruct (add_blocks truth _ _) as [F' err] eqn:Hrun.
  simpl in HF. rewrite lookup_insert_eq in HF. injection HF as ->.
  destruct (add_blocks_meta _ _ _ _ Hrun) as (Hn & Hd & Ht & _).
  simpl in Hn, Hd, Ht. repeat (split; [assumption|]).
  intros k o Ho. destruct (Hall k o Ho) as (sb & mb & _ & Hmb & Hopt).
  exists mb. split; [exact Hmb|].
  unfold block_options in Hopt.
  destruct (sign_trace (data sb)) as [e|sign]; [discriminate|].
  destruct (np_multiply sign (data mb)) as [e|signed]; [discriminate|].
  destruct (np_any truth (sectionPoint mb)); injection Hopt as <-; auto.
Qed.


End CalculateRuns.

(** ** [fromOdb]: what a run keeps, whatever its outcome *)

Section Loops.
Context {G A : Type}.
Variable body : A -> G -> A * G * option PyError.

Lemma for_each_mut_Forall2 (Rel : A -> A -> Prop) :
  (forall x, Rel x x) ->
  (forall x g, Rel x (body x g).1.1) ->
  forall xs g, Forall2 Rel xs (for_each_mut body xs g).1.1.
Proof.
  intros Hrefl Hbody. induction xs as [|x xs IH]; intros g; simpl.
  - constructor.
  - pose proof (Hbody x g) as Hx.
    destruct (body x g) as [[x' g'] [e|]]; simpl in *.
    + constructor; [exact Hx|]. clear IH. induction xs; constructor; auto.
    + specialize (IH g').
      destruct (for_each_mut body xs g') as [[xs' g''] r]. simpl in *.
      constructor; assumption.
Qed.


End Loops.

Lemma for_each_mut_appends {A B : Type}
    (body : A -> list B -> A * list B * option PyError) :
  (forall x out, exists lines, (body x out).1.2 = out ++ lines) ->
  forall xs out, exists lines, (for_each_mut body xs out).1.2 = out ++ lines.
Proof.
  intros Hbody. induction xs as [|x xs IH]; intros out; simpl.
  - exists []. rewrite app_nil_r. reflexivity.
  - destruct (Hbody x out) as [l1 H1].
    destruct (body x out) as [[x' out'] [e|]]; simpl in *.
    + exists l1. exact H1.
    + destruct (IH out') as [l2 H2].
      destruct (for_each_mut body xs out') as [[xs' out''] r]. simpl in *.
      exists (l1 ++ l2). rewrite H2, H1, app_assoc. reflexivity.
Qed.

Section Unique2.
Local Open Scope Z_scope.

(** A strictly ascending list is determined by its values. *)
Lemma sorted_lt_determined (l1 l2 : list Z) :
  StronglySorted Z.lt l1 -> StronglySorted Z.lt l2 ->
  (forall x, In x l1 <-> In x l2) -> l1 = l2.
Proof.
  intros H1. revert l2. induction H1 as [|a l1 Hs1 IH Ha]; intros l2 H2 Hin.
  - destruct l2 as [|b l2]; [reflexivity|].
    destruct (proj2 (Hin b)); left; reflexivity.
  - destruct H2 as [|b l2 Hs2 Hb].
    { destruct (proj1 (Hin a)); left; reflexivity. }
    rewrite List.Forall_forall in Ha, Hb.
    assert (Hab : a = b).
    { destruct (proj1 (Hin a) (or_introl eq_refl)) as [Heq|Hl2]; [auto|].
      destruct (proj2 (Hin b) (or_introl eq_refl)) as [Heq|Hl1]; [auto|].
      specialize (Ha b Hl1). specialize (Hb a Hl2). lia. }
    subst b. f_equal. apply IH; [exact Hs2|].
    intros x. split; intros Hx.
    + destruct (proj1 (Hin x) (or_intror Hx)) as [Heq|Hl2]; [|exact Hl2].
      specialize (Ha x Hx). lia.
    + destruct (proj2 (Hin x) (or_intror Hx)) as [Heq|Hl1]; [|exact Hl1].
      specialize (Hb x Hx). lia.
Qed.

End Unique2.

Section WalkKeeps.
Context {R SP : Type} `{Scalar R}.
Variable truth : SP -> bool.
Variable getScalarField : Field.t R SP -> Field.t R SP.
Implicit Types (frame : Frame.t R SP) (step : Step.t R SP) (odb : Odb.t R SP).
Implicit Types (out : list Output) (w : World R SP).

(** X9. The labels of an emitted block are determined by the set of the
    labels of the Mises block: two blocks whose labels have the same
    values, in whatever order and however often, give the same labels. *)
Theorem calculate_labels_canonical frame1 frame2 k1 k2 S1 M1 S2 M2 o1 o2 :
  emits truth getScalarField frame1 k1 S1 M1 o1 ->
  emits truth getScalarField frame2 k2 S2 M2 o2 ->
  (forall x, In x (elementLabels M1) <-> In x (elementLabels M2)) ->
  kw.labels o1 = kw.labels o2.
Proof.
  intros H1 H2 Hsame.
  apply emits_block_options, block_options_inr in H1 as (_ & _ & -> & _).
  apply emits_block_options, block_options_inr in H2 as (_ & _ & -> & _).
  apply sorted_lt_determined; try apply np_unique_sorted.
  intros x. rewrite !In_np_unique. apply Hsame.
Qed.

Lemma frame_kept_refl frame : frame_kept frame frame.
Proof. split; [reflexivity | intros; reflexivity]. Qed.

Lemma frame_kept_visit step frame out :
  frame_kept frame (visit_frame truth getScalarField step frame out).1.1.
Proof.
  rewrite visit_frame_eq. simpl. unfold synthesized.
  destruct (wants_calculate frame) eqn:Hw; [|apply frame_kept_refl].
  apply wants_calculate_iff in Hw as [[S' HS] Hnew].
  unfold calculate. rewrite HS.
  destruct (add_blocks truth _ _) as [F err]. simpl.
  split; [reflexivity|]. simpl. intros name [Hne|Hsome].
  - apply lookup_insert_ne. unfold foName. congruence.
  - apply lookup_insert_ne. unfold foName. intros <-.
    rewrite Hnew in Hsome. destruct Hsome as [x Hx]. discriminate.
Qed.

Lemma step_kept_refl step : step_kept step step.
Proof.
  split; [reflexivity|].
  induction (Step.frames step); constructor; auto using frame_kept_refl.
Qed.

Lemma step_kept_visit step out :
  step_kept step (visit_step truth getScalarField step out).1.1.
Proof.
  unfold visit_step.
  pose proof (for_each_mut_Forall2 (visit_frame truth getScalarField step)
                frame_kept frame_kept_refl (frame_kept_visit step)
                (Step.frames step) out) as Hframes.
  destruct (for_each_mut _ _ _) as [[frames' out'] err]. simpl in *.
  split; [reflexivity | exact Hframes].
Qed.

(** X10. Whatever its outcome, a run of [fromOdb] on a database it can
    open keeps the steps, their names and their frames in number and
    order, and in every frame the description, every field under a name
    other than "S_MISES", and the field "S_MISES" where there was one: it
    deletes nothing and replaces nothing. *)
Theorem fromOdb_keeps odbName w odb :
  files w !! odbName = Some odb ->
  exists odb',
    files (fromOdb truth getScalarField odbName w).1 !! odbName = Some odb'
    /\ odb_kept odb odb'.
Proof.
  intros Hf. unfold fromOdb. rewrite Hf. unfold walk.
  pose proof (for_each_mut_Forall2 (visit_step truth getScalarField)
                step_kept step_kept_refl step_kept_visit
                (Odb.steps odb) (stdout w)) as Hsteps.
  destruct (for_each_mut _ _ _) as [[steps' out'] err]. simpl in *.
  eexists. rewrite lookup_insert_eq. split; [reflexivity|].
  exact Hsteps.
Qed.

Lemma visit_step_appends step out :
  exists lines,
    (visit_step truth getScalarField step out).1.2 = out ++ lines.
Proof.
  unfold visit_step.
  destruct (for_each_mut_appends (visit_frame truth getScalarField step))
    with (xs := Step.frames step) (out := out) as [lines Hl].
  { intros frame out0. rewrite visit_frame_eq. simpl. eauto. }
  destruct (for_each_mut _ _ _) as [[frames' out'] err]. simpl in *.
  exists lines. exact Hl.
Qed.

(** X11. A run of [fromOdb], whatever its outcome, leaves every other
    database as it was, creates and removes no file, and only appends to
    the standard output. *)
Theorem fromOdb_elsewhere odbName w :
  (forall name,
     name <> odbName ->
     files (fromOdb truth getScalarField odbName w).1 !! name
     = files w !! name)
  /\ dom (files (fromOdb truth getScalarField odbName w).1) = dom (files w)
  /\ exists lines,
       stdout (fromOdb truth getScalarField odbName w).1 = stdout w ++ lines.
Proof.
  unfold fromOdb.
  destruct (files w !! odbName) as [odb|] eqn:Hf.
  - unfold walk.
    destruct (for_each_mut_appends (visit_step truth getScalarField)
                visit_step_appends (Odb.steps odb) (stdout w)) as [lines Hl].
    destruct (for_each_mut _ _ _) as [[steps' out'] err]. simpl in *.
    split; [|split].
    + intros name Hne. apply lookup_insert_ne. congruence.
    + apply dom_insert_lookup_L. rewrite Hf. eauto.
    + exists lines. exact Hl.
  - simpl. split; [auto|]. split; [reflexivity|].
    exists []. rewrite app_nil_r. reflexivity.
Qed.



End WalkKeeps.

(** ** The argument loop, run again *)

Section MainAgain.
Context {R SP : Type} `{Scalar R}.
Variable truth : SP -> bool.
Variable getScalarField : Field.t R SP -> Field.t R SP.
Implicit Types (w : World R SP) (argv args : list string) (arg name : string).

(** A run of [fromOdb] that raises nothing leaves its database with no
    frame that passes the test. *)
Lemma fromOdb_processed odbName w w' :
  fromOdb truth getScalarField odbName w = (w', None) ->
  processed w' odbName.
Proof.
  unfold fromOdb.
  destruct (files w !! odbName) as [odb|]; [|discriminate].
  destruct (walk truth getScalarField odb (stdout w)) as [[odb' out'] err]
    eqn:Hwalk.
  intros Hrun. injection Hrun as <- ->.
  destruct (walk_ok _ _ _ _ _ _ Hwalk) as (_ & _ & Hset).
  exists odb'. simpl. rewrite lookup_insert_eq. auto.
Qed.

Lemma handle_arg_archive argv arg w :
  String.eqb "--help" arg = false -> String.eqb "--test" arg = false ->
  handle_arg truth getScalarField argv arg w
  = fromOdb truth getScalarField arg
      {| files := files w; stdout := stdout w ++ own_lines argv arg |}.
Proof.
  intros Hh Ht. unfold handle_arg, own_lines. rewrite Hh, Ht.
  destruct (2 <? length argv); [reflexivity|].
  rewrite app_nil_r. destruct w. reflexivity.
Qed.

(** Handling an argument whose database is processed changes no file. *)
Lemma handle_arg_processed argv arg w :
  (String.eqb "--help" arg = false -> String.eqb "--test" arg = false ->
   processed w arg) ->
  handle_arg truth getScalarField argv arg w
  = ({| files := files w; stdout := stdout w ++ own_lines argv arg |}, None).
Proof.
  intros Hproc.
  destruct (String.eqb "--help" arg) eqn:Hh.
  { unfold handle_arg, own_lines. rewrite Hh. reflexivity. }
  destruct (String.eqb "--test" arg) eqn:Ht.
  { unfold handle_arg, own_lines. rewrite Hh, Ht. reflexivity. }
  destruct (Hproc eq_refl eq_refl) as (odb & Hf & Hset).
  rewrite (handle_arg_archive argv arg w Hh Ht).
  apply (fromOdb_settled truth getScalarField arg _ odb); assumption.
Qed.

Lemma for_each_processed_again argv args w :
  (forall arg, In arg args ->
     String.eqb "--help" arg = false -> String.eqb "--test" arg = false ->
     processed w arg) ->
  for_each (handle_arg truth getScalarField argv) args w
  = ({| files := files w;
        stdout := stdout w ++ flat_map (own_lines argv) args |}, None).
Proof.
  revert w. induction args as [|arg args IH]; intros w Hall; simpl.
  - rewrite app_nil_r. destruct w. reflexivity.
  - rewrite handle_arg_processed by (apply Hall; left; reflexivity).
    rewrite IH; simpl.
    + rewrite <- app_assoc. reflexivity.
    + intros a Ha. apply (Hall a). right. exact Ha.
Qed.

Lemma processed_stays argv arg w name :
  processed w name ->
  processed (handle_arg truth getScalarField argv arg w).1 name.
Proof.
  intros Hp. destruct (String.eqb_spec arg name) as [->|Hne].
  - rewrite handle_arg_processed by (intros; exact Hp). exact Hp.
  - destruct Hp as (odb & Hf & Hset). exists odb. split; [|exact Hset].
    rewrite (handle_arg_other truth getScalarField argv arg w name)
      by congruence.
    exact Hf.
Qed.

Lemma for_each_leaves_processed argv args w w1 :
  for_each (handle_arg truth getScalarField argv) args w = (w1, None) ->
  forall arg, In arg args ->
    String.eqb "--help" arg = false -> String.eqb "--test" arg = false ->
    processed w1 arg.
Proof.
  revert w. induction args as [|a args IH]; intros w Hrun arg Hin Hh Ht;
    [destruct Hin|]. simpl in Hrun.
  destruct (handle_arg truth getScalarField argv a w) as [w' [e|]] eqn:Ha;
    [discriminate|].
  destruct (in_dec String.string_dec arg args) as [Hrest|Hnot].
  - apply (IH w' Hrun arg Hrest Hh Ht).
  - destruct Hin as [->|Hin]; [|contradiction].
    rewrite (handle_arg_archive argv arg w Hh Ht) in Ha.
    apply fromOdb_processed in Ha.
    assert (Hkeep : forall args0 w0 w2,
              processed w0 arg ->
              for_each (handle_arg truth getScalarField argv) args0 w0
              = (w2, None) ->
              processed w2 arg).
    { clear. induction args0 as [|b args0 IH0]; intros w0 w2 Hp Hrun0;
        simpl in Hrun0.
      - injection Hrun0 as <-. exact Hp.
      - pose proof (processed_stays argv b w0 arg Hp) as Hp'.
        destruct (handle_arg truth getScalarField argv b w0) as [w3 [e|]];
          [discriminate|].
        apply (IH0 w3 w2 Hp' Hrun0). }
    apply (Hkeep args w' w1 Ha Hrun).
Qed.

(** X13. Running the script again on the same command line, after a run
    that raised nothing, raises nothing and changes no database: it
    prints the documentation, the doctest report and the echoes again,
    and no progress line, since no frame is synthesized a second time. *)
Theorem main_again argv w w1 :
  main truth getScalarField argv w = (w1, None) ->
  main truth getScalarField argv w1
  = ({| files := files w1;
        stdout := stdout w1 ++ flat_map (own_lines argv) (tail argv) |},
     None).
Proof.
  unfold main. intros Hrun. apply for_each_processed_again.
  apply (for_each_leaves_processed argv (tail argv) w w1 Hrun).
Qed.

(** X14. When an archive raises, the archives handled before it keep
    what they were given: each of them is still there after the failed
    run, every one of its frames with "S" holding "S_MISES". *)
Theorem main_keeps_earlier argv pre arg post w w1 w2 e :
  tail argv = pre ++ arg :: post ->
  for_each (handle_arg truth getScalarField argv) pre w = (w1, None) ->
  handle_arg truth getScalarField argv arg w1 = (w2, Some e) ->
  forall name,
    In name pre ->
    String.eqb "--help" name = false -> String.eqb "--test" name = false ->
    exists odb, files w2 !! name = Some odb /\ settled odb.
Proof.
  intros _ Hpre Harg name Hin Hh Ht.
  pose proof (for_each_leaves_processed argv pre w w1 Hpre name Hin Hh Ht)
    as Hp.
  pose proof (processed_stays argv arg w1 name Hp) as Hp'.
  rewrite Harg in Hp'. exact Hp'.
Qed.

End MainAgain.

(** ** [onJobCompletion] *)

Section JobCompletion.
Context {R SP : Type} `{Scalar R}.
Variable truth : SP -> bool.
Variable getScalarField : Field.t R SP -> Field.t R SP.
Variable join : string -> string -> string.

(** X15. After a call of [onJobCompletion] that raised nothing, the module
    is imported and the job's database, [savedir] joined with [id] and
    ".odb", has no frame left that passes the test of [fromOdb]; a second
    call raises nothing and changes nothing, neither a database nor the
    standard output. *)
Theorem onJobCompletion_again imported argv savedir id
    (w w1 : World R SP) imported1 :
  onJobCompletion truth getScalarField join imported argv savedir id w
  = (imported1, w1, None) ->
  imported1 = true
  /\ processed w1 (join savedir (id +:+ ".odb"))
  /\ onJobCompletion truth getScalarField join imported1 argv savedir id w1
     = (true, w1, None).
Proof.
  unfold onJobCompletion. intros Hrun.
  assert (Hfrom : exists w0,
            fromOdb truth getScalarField (join savedir (id +:+ ".odb")) w0
            = (w1, None) /\ imported1 = true).
  { destruct (import_s_mises truth getScalarField imported argv w)
      as [[imp w0] [e|]] eqn:Himp; [discriminate|].
    destruct (fromOdb truth getScalarField _ w0) as [w' err] eqn:Hf.
    injection Hrun as <- <- ->. exists w0. split; [exact Hf|].
    unfold import_s_mises in Himp. destruct imported.
    - injection Himp as <- _. reflexivity.
    - destruct (main truth getScalarField argv w) as [w'' [e|]];
        [discriminate|]. injection Himp as <- _. reflexivity. }
  destruct Hfrom as (w0 & Hf & ->).
  pose proof (fromOdb_processed truth getScalarField _ _ _ Hf)
    as (odb & Hodb & Hset).
  split; [reflexivity|]. split; [exists odb; auto|].
  simpl. rewrite (fromOdb_settled truth getScalarField _ w1 odb Hodb Hset).
  reflexivity.
Qed.

End JobCompletion.

(** ** The further properties on the example databases *)

Lemma calculate_succeeds_example :
  (calculate truth_Z mises_field example_frame).2 = None
  /\ exists S_MISES,
       Frame.fieldOutputs (calculate truth_Z mises_field example_frame).1
         !! "S_MISES"
       = Some S_MISES
       /\ length (Field.added S_MISES)
          = length (zip (Field.bulkDataBlocks (stress_field [example_block]))
                        (Field.bulkDataBlocks
                           (mises_field (stress_field [example_block]))))
       /\ Forall (fun o => well_formed (kw.data o)) (Field.added S_MISES).
Proof.
  apply (calculate_succeeds truth_Z mises_field example_frame
           (stress_field [example_block]));
    [vm_compute; reflexivity|].
  repeat constructor. exists 3, 1. repeat split; reflexivity.
Defined.

Lemma calculate_propagates_example :
  (calculate truth_Z mises_field narrow_frame).2
  = Some (AssertionError
            "Data elements must be in Abaqus symmetric tensor format")
  /\ exists S_MISES,
       Frame.fieldOutputs (calculate truth_Z mises_field narrow_frame).1
         !! "S_MISES"
       = Some S_MISES
       /\ length (Field.added S_MISES) = 1.
Proof.
  apply (calculate_propagates truth_Z mises_field narrow_frame
           (stress_field [example_block; narrow_block]) 1
           narrow_block (mises_block narrow_block));
    try (vm_compute; reflexivity).
  repeat constructor. exists 3, 1. repeat split; reflexivity.
Defined.

Lemma calculate_metadata_example :
  exists S_MISES,
    Frame.fieldOutputs (calculate truth_Z mises_field example_frame).1
      !! "S_MISES"
    = Some S_MISES
    /\ Field.name S_MISES = "S_MISES"
    /\ Field.description S_MISES = "Signed Mises equivalent stress"
    /\ Field.type S_MISES
       = Field.type (mises_field (stress_field [example_block]))
    /\ forall k o,
         Field.added S_MISES !! k = Some o ->
         exists MISESblock,
           Field.bulkDataBlocks (mises_field (stress_field [example_block]))
             !! k = Some MISESblock
           /\ kw.position o = position MISESblock
           /\ kw.instance o = instance MISESblock.
Proof.
  apply (calculate_metadata truth_Z mises_field example_frame
           (stress_field [example_block])).
  vm_compute. reflexivity.
Defined.


Lemma calculate_labels_canonical_example :
  kw.labels example_options = kw.labels reordered_options.
Proof.
  apply (calculate_labels_canonical truth_Z mises_field
           example_frame reordered_frame 0 0
           example_block (mises_block example_block)
           reordered_block (mises_block reordered_block)
           example_options reordered_options).
  - example_emits.
  - exists (stress_field [reordered_block]); eexists;
      repeat split; vm_compute; reflexivity.
  - intros x. simpl. intuition.
Defined.

Lemma fromOdb_keeps_example :
  exists odb',
    files (fromOdb truth_Z mises_field "a.odb" example_world).1 !! "a.odb"
    = Some odb'
    /\ odb_kept narrow_odb odb'.
Proof.
  apply (fromOdb_keeps truth_Z mises_field "a.odb" example_world narrow_odb).
  vm_compute. reflexivity.
Defined.


Lemma main_again_example :
  main truth_Z mises_field ["s_mises.py"; "--help"; "b.odb"]
    (main truth_Z mises_field ["s_mises.py"; "--help"; "b.odb"]
       example_world).1
  = ({| files :=
          files (main truth_Z mises_field ["s_mises.py"; "--help"; "b.odb"]
                   example_world).1;
        stdout :=
          stdout (main truth_Z mises_field ["s_mises.py"; "--help"; "b.odb"]
                    example_world).1
          ++ flat_map (own_lines ["s_mises.py"; "--help"; "b.odb"])
                      (tail ["s_mises.py"; "--help"; "b.odb"]) |},
     None).
Proof.
  apply (main_again truth_Z mises_field ["s_mises.py"; "--help"; "b.odb"]
           example_world).
  vm_compute. reflexivity.
Defined.

Lemma main_keeps_earlier_example :
  exists odb,
    files (handle_arg truth_Z mises_field ["s_mises.py"; "b.odb"; "a.odb"]
             "a.odb"
             (handle_arg truth_Z mises_field
                ["s_mises.py"; "b.odb"; "a.odb"] "b.odb" example_world).1).1
      !! "b.odb"
    = Some odb
    /\ settled odb.
Proof.
  apply (main_keeps_earlier truth_Z mises_field
           ["s_mises.py"; "b.odb"; "a.odb"] ["b.odb"] "a.odb" []
           example_world
           (handle_arg truth_Z mises_field
              ["s_mises.py"; "b.odb"; "a.odb"] "b.odb" example_world).1
           _
           (AssertionError
              "Data elements must be in Abaqus symmetric tensor format")
           eq_refl);
    try (vm_compute; reflexivity).
  left. reflexivity.
Defined.

Lemma onJobCompletion_again_example :
  true = true
  /\ processed
       (onJobCompletion truth_Z mises_field example_join false
          ["abaqus"] "" "b" example_world).1.2
       (example_join "" ("b" +:+ ".odb"))
  /\ onJobCompletion truth_Z mises_field example_join true ["abaqus"] "" "b"
       (onJobCompletion truth_Z mises_field example_join false
          ["abaqus"] "" "b" example_world).1.2
     = (true,
        (onJobCompletion truth_Z mises_field example_join false
           ["abaqus"] "" "b" example_world).1.2,
        None).
Proof.
  apply (onJobCompletion_again truth_Z mises_field example_join false
           ["abaqus"] "" "b" example_world).
  vm_compute. reflexivity.
Defined.
